(** * Adafruit_SPITFT (shift-register variant): bus primitives and clipping

    A shallow embedding of [src/libs/Adafruit_GFX_SR/Adafruit_SPITFT_SR.cpp].
    Member functions become computations in a small state-and-trace monad:
    the state is the driver object together with the pixel memory that the
    pointer arguments refer to, the trace is the sequence of calls made on
    the collaborators (SPI peripheral, digital pins, serial log, the
    subclass' [setAddrWindow]). *)

From Stdlib Require Import ZArith List Bool Lia.
Import ListNotations.
Local Open Scope Z_scope.

(** ** Fixed-width integers *)

Module Int.

Definition u8 (z : Z) : Z := z mod 256.
Definition u16 (z : Z) : Z := z mod 65536.
Definition u32 (z : Z) : Z := z mod 4294967296.

(** Conversion to [int16_t]: two's complement wrap-around. *)
Definition i16 (z : Z) : Z := (z + 32768) mod 65536 - 32768.

Definition is_u8 (z : Z) : Prop := 0 <= z < 256.
Definition is_u16 (z : Z) : Prop := 0 <= z < 65536.
Definition is_u32 (z : Z) : Prop := 0 <= z < 4294967296.
Definition is_i16 (z : Z) : Prop := -32768 <= z < 32768.

(** C truth value of an integer. *)
Definition truthy (z : Z) : bool := negb (z =? 0).

(** [__builtin_bswap16] *)
Definition bswap16 (v : Z) : Z :=
  Z.lor (Z.shiftl (Z.land v 255) 8) (Z.land (Z.shiftr v 8) 255).

End Int.
Import Int.

(** ** Collaborators and the driver object *)

Inductive level := LOW | HIGH.
Inductive pin_mode := INPUT | OUTPUT.
Inductive bit_order := LSBFIRST | MSBFIRST.
Inductive spi_mode := SPI_MODE0 | SPI_MODE1 | SPI_MODE2 | SPI_MODE3.

Record SPISettings := mkSPISettings {
  clock : Z;
  bitOrder : bit_order;
  dataMode : spi_mode
}.

(** Values of [Adafruit_SPITFT.connection]. *)
Definition TFT_HARD_SPI : Z := 0.
Definition TFT_SOFT_SPI : Z := 1.
Definition TFT_PARALLEL : Z := 2.
Definition TFT_HYBRID_HWSPI_PARALLEL : Z := 3.

(** The members of the object that the functions below read or write.
    [_width] and [_height] are the [int16_t] members inherited from
    [Adafruit_GFX]. *)
Record Adafruit_SPITFT := mkSPITFT {
  _width : Z;
  _height : Z;
  connection : Z;
  _rst : Z;
  _cs : Z;
  _dc : Z;
  tft8_wr : Z;
  tft8_rd : Z;
  tft8_wide : bool;
  hwspi_settings : SPISettings
}.

(** One call on a collaborator. *)
Inductive event :=
| SpiBegin
| SpiBeginTransaction (s : SPISettings)
| SpiTransfer (b : Z)
| SpiTransfer16 (w : Z)
| SpiEndTransaction
| PinMode (pin : Z) (m : pin_mode)
| DigitalWrite (pin : Z) (l : level)
| Delay (ms : Z)
| SerialPrintln (v : Z)
| SetAddrWindow (x y w h : Z).

(** Memory of 16-bit cells, addressed in units of [uint16_t]; the null
    pointer is address 0. *)
Definition memory := Z -> Z.

Record World := mkWorld {
  this : Adafruit_SPITFT;
  ram : memory
}.

(** ** State-and-trace monad *)

Record Result (A : Type) := mkResult {
  value : A;
  final : World;
  trace : list event
}.
Arguments mkResult {A} _ _ _.
Arguments value {A} _.
Arguments final {A} _.
Arguments trace {A} _.

Definition M (A : Type) : Type := World -> Result A.

Definition ret {A} (a : A) : M A := fun s => mkResult a s [].

Definition bind {A B} (m : M A) (k : A -> M B) : M B :=
  fun s =>
    let r := m s in
    let r' := k (value r) (final r) in
    mkResult (value r') (final r') (trace r ++ trace r').

Declare Scope m_scope.
Delimit Scope m_scope with m.
Notation "x <- m ;; k" := (bind m (fun x => k))
  (at level 61, m at next level, right associativity) : m_scope.
Notation "m ;; k" := (bind m (fun _ => k))
  (at level 61, right associativity) : m_scope.
Local Open Scope m_scope.

Definition emit (e : event) : M unit := fun s => mkResult tt s [e].
Definition self : M Adafruit_SPITFT := fun s => mkResult (this s) s [].
Definition load (p : Z) : M Z := fun s => mkResult (ram s p) s [].
Definition store (p v : Z) : M unit :=
  fun s =>
    mkResult tt (mkWorld (this s) (fun a => if a =? p then v else ram s a)) [].
Definition set_settings (c : SPISettings) : M unit :=
  fun s =>
    let d := this s in
    mkResult tt
      (mkWorld (mkSPITFT (_width d) (_height d) (connection d) (_rst d)
                  (_cs d) (_dc d) (tft8_wr d) (tft8_rd d) (tft8_wide d) c)
               (ram s)) [].

(** [n] successive runs of a loop body. *)
Fixpoint times (n : nat) (body : M unit) : M unit :=
  match n with
  | O => ret tt
  | S n' => body ;; times n' body
  end.

(** A counted loop [for (i = 0; i < n; i++) body(i)], from index [i]. *)
Fixpoint for_from (n : nat) (i : Z) (body : Z -> M unit) : M unit :=
  match n with
  | O => ret tt
  | S n' => body i ;; for_from n' (i + 1) body
  end.

(** ** Collaborator calls *)

Definition pinMode (pin : Z) (m : pin_mode) : M unit := emit (PinMode pin m).
Definition digitalWrite (pin : Z) (l : level) : M unit :=
  emit (DigitalWrite pin l).
Definition delay (ms : Z) : M unit := emit (Delay ms).
(** [Serial.println(v, HEX)] *)
Definition Serial_println (v : Z) : M unit := emit (SerialPrintln v).
(** [hwspi._spi->transfer(b)]; the parameter is a [uint8_t]. *)
Definition spi_transfer (b : Z) : M unit := emit (SpiTransfer (u8 b)).
Definition spi_transfer16 (w : Z) : M unit := emit (SpiTransfer16 (u16 w)).
(** The pure virtual [setAddrWindow], supplied by the display subclass. *)
Definition setAddrWindow (x y w h : Z) : M unit :=
  emit (SetAddrWindow x y w h).

(** Modelled from the spec: the inline pin helpers [SPI_CS_HIGH],
    [SPI_CS_LOW], [SPI_DC_HIGH] and [SPI_DC_LOW] are defined in
    [Adafruit_SPITFT_SR.h], which is not among the sources; following the
    digital I/O interface of the spec they set the level of the
    chip-select and data/command pin. *)
Definition SPI_CS_HIGH : M unit := d <- self ;; digitalWrite (_cs d) HIGH.
Definition SPI_CS_LOW : M unit := d <- self ;; digitalWrite (_cs d) LOW.
Definition SPI_DC_HIGH : M unit := d <- self ;; digitalWrite (_dc d) HIGH.
Definition SPI_DC_LOW : M unit := d <- self ;; digitalWrite (_dc d) LOW.

Module SPITFT.

Section Driver.

(** [DEFAULT_SPI_FREQ] is a macro of the header that is not among the
    sources. *)
Variable DEFAULT_SPI_FREQ : Z.

(** ** Lowest-level hardware-interfacing functions *)

Definition TFT_WR_STROBE : M unit :=
  d <- self ;;
  digitalWrite (tft8_wr d) LOW ;;
  digitalWrite (tft8_wr d) HIGH.

Definition TFT_CS_STROBE : M unit :=
  SPI_CS_HIGH ;;
  SPI_CS_LOW.

Definition TFT_RD_HIGH : M unit :=
  d <- self ;; digitalWrite (tft8_rd d) HIGH.

Definition TFT_RD_LOW : M unit :=
  d <- self ;; digitalWrite (tft8_rd d) LOW.

Definition SPI_BEGIN_TRANSACTION : M unit :=
  d <- self ;;
  emit (SpiBeginTransaction (hwspi_settings d)).

Definition SPI_END_TRANSACTION : M unit :=
  emit SpiEndTransaction ;;
  TFT_CS_STROBE ;;
  TFT_WR_STROBE.

Definition spiWrite (b : Z) : M unit :=
  SPI_BEGIN_TRANSACTION ;;
  spi_transfer b ;;
  spi_transfer b ;;
  Serial_println (u16 (Z.land 255 b)) ;;
  SPI_END_TRANSACTION.

Definition writeCommand (cmd : Z) : M unit :=
  SPI_DC_LOW ;;
  spiWrite cmd ;;
  SPI_DC_HIGH.

Definition spiRead : M Z := ret 0.

Definition write16 (w : Z) : M unit :=
  SPI_BEGIN_TRANSACTION ;;
  Serial_println w ;;
  spi_transfer (Z.shiftr w 8) ;;
  spi_transfer (Z.land w 255) ;;
  SPI_END_TRANSACTION.

Definition writeCommand16 (cmd : Z) : M unit :=
  SPI_DC_LOW ;;
  write16 cmd ;;
  SPI_DC_HIGH.

Definition read16 : M Z := ret 0.

Definition SPI_WRITE16 (w : Z) : M unit :=
  SPI_BEGIN_TRANSACTION ;;
  Serial_println (Z.land (Z.shiftr w 8) 255) ;;
  Serial_println (Z.land w 255) ;;
  spi_transfer (Z.shiftr w 8) ;;
  spi_transfer (Z.land w 255) ;;
  SPI_END_TRANSACTION.

Definition SPI_WRITE32 (l : Z) : M unit :=
  SPI_BEGIN_TRANSACTION ;;
  Serial_println (u8 (Z.shiftr l 24)) ;;
  Serial_println (u8 (Z.shiftr l 16)) ;;
  spi_transfer (Z.shiftr l 24) ;;
  spi_transfer (Z.shiftr l 16) ;;
  SPI_END_TRANSACTION ;;
  SPI_BEGIN_TRANSACTION ;;
  Serial_println (u8 (Z.shiftr l 8)) ;;
  Serial_println (u8 l) ;;
  spi_transfer (Z.shiftr l 8) ;;
  spi_transfer l ;;
  SPI_END_TRANSACTION.

(** ** Initialisation and transfer settings *)

Definition initSPI (freq : Z) (spiMode : Z) : M unit :=
  let freq := if truthy freq then freq else DEFAULT_SPI_FREQ in
  d <- self ;;
  pinMode (_cs d) OUTPUT ;;
  SPI_CS_LOW ;;
  pinMode (_dc d) OUTPUT ;;
  SPI_DC_HIGH ;;
  set_settings (mkSPISettings freq MSBFIRST SPI_MODE0) ;;
  emit SpiBegin ;;
  d' <- self ;;
  emit (SpiBeginTransaction (hwspi_settings d')) ;;
  spi_transfer16 0 ;;
  emit SpiEndTransaction ;;
  TFT_CS_STROBE ;;
  pinMode (tft8_wr d) OUTPUT ;;
  digitalWrite (tft8_wr d) HIGH ;;
  (if 0 <=? tft8_rd d
   then pinMode (tft8_rd d) OUTPUT ;; digitalWrite (tft8_rd d) HIGH
   else ret tt) ;;
  (if 0 <=? _rst d
   then pinMode (_rst d) OUTPUT ;;
        digitalWrite (_rst d) HIGH ;;
        delay 100 ;;
        digitalWrite (_rst d) LOW ;;
        delay 100 ;;
        digitalWrite (_rst d) HIGH ;;
        delay 200
   else ret tt).

Definition setSPISpeed (freq : Z) : M unit :=
  set_settings (mkSPISettings DEFAULT_SPI_FREQ MSBFIRST SPI_MODE0).

Definition startWrite : M unit := SPI_BEGIN_TRANSACTION.
Definition endWrite : M unit := SPI_END_TRANSACTION.

(** ** Lower-level graphics operations *)

Definition writePixel (x y color : Z) : M unit :=
  d <- self ;;
  if (0 <=? x) && (x <? _width d) && (0 <=? y) && (y <? _height d)
  then setAddrWindow x y 1 1 ;;
       SPI_WRITE16 color
  else ret tt.

Definition swapBytes (src len dest : Z) : M unit :=
  let dest := if truthy dest then dest else src in
  for_from (Z.to_nat len) 0
    (fun i => v <- load (src + i) ;; store (dest + i) (bswap16 v)).

(** The loop [while (len--) SPI_WRITE16( *colors++ )]. *)
Fixpoint writePixels_loop (n : nat) (colors : Z) : M unit :=
  match n with
  | O => ret tt
  | S n' =>
      v <- load colors ;;
      SPI_WRITE16 v ;;
      writePixels_loop n' (colors + 1)
  end.

Definition writePixels (colors len : Z) (block bigEndian : bool) : M unit :=
  if truthy len
  then writePixels_loop (Z.to_nat len) colors
  else ret tt.

Definition dmaWait : M unit := ret tt.

Definition writeColor (color len : Z) : M unit :=
  if truthy len
  then times (Z.to_nat len) (SPI_WRITE16 color)
  else ret tt.

Definition writeFillRectPreclipped (x y w h color : Z) : M unit :=
  setAddrWindow x y w h ;;
  writeColor color (u32 (u32 w * u32 h)).

Definition writeFillRect (x y w h color : Z) : M unit :=
  d <- self ;;
  if truthy w && truthy h then
    let '(x, w) := if w <? 0 then (i16 (x + (w + 1)), i16 (- w)) else (x, w) in
    if x <? _width d then
      let '(y, h) := if h <? 0 then (i16 (y + (h + 1)), i16 (- h)) else (y, h) in
      if y <? _height d then
        let x2 := i16 (x + w - 1) in
        if 0 <=? x2 then
          let y2 := i16 (y + h - 1) in
          if 0 <=? y2 then
            let '(x, w) := if x <? 0 then (0, i16 (x2 + 1)) else (x, w) in
            let '(y, h) := if y <? 0 then (0, i16 (y2 + 1)) else (y, h) in
            let w := if _width d <=? x2 then i16 (_width d - x) else w in
            let h := if _height d <=? y2 then i16 (_height d - y) else h in
            writeFillRectPreclipped x y w h color
          else ret tt
        else ret tt
      else ret tt
    else ret tt
  else ret tt.

Definition writeFastHLine (x y w color : Z) : M unit :=
  d <- self ;;
  if (0 <=? y) && (y <? _height d) && truthy w then
    let '(x, w) := if w <? 0 then (i16 (x + (w + 1)), i16 (- w)) else (x, w) in
    if x <? _width d then
      let x2 := i16 (x + w - 1) in
      if 0 <=? x2 then
        let '(x, w) := if x <? 0 then (0, i16 (x2 + 1)) else (x, w) in
        let w := if _width d <=? x2 then i16 (_width d - x) else w in
        writeFillRectPreclipped x y w 1 color
      else ret tt
    else ret tt
  else ret tt.

Definition writeFastVLine (x y h color : Z) : M unit :=
  d <- self ;;
  if (0 <=? x) && (x <? _width d) && truthy h then
    let '(y, h) := if h <? 0 then (i16 (y + (h + 1)), i16 (- h)) else (y, h) in
    if y <? _height d then
      let y2 := i16 (y + h - 1) in
      if 0 <=? y2 then
        let '(y, h) := if y <? 0 then (0, i16 (y2 + 1)) else (y, h) in
        let h := if _height d <=? y2 then i16 (_height d - y) else h in
        writeFillRectPreclipped x y 1 h color
      else ret tt
    else ret tt
  else ret tt.

(** ** Self-contained graphics operations *)

Definition drawPixel (x y color : Z) : M unit :=
  d <- self ;;
  if (0 <=? x) && (x <? _width d) && (0 <=? y) && (y <? _height d)
  then setAddrWindow x y 1 1 ;;
       SPI_WRITE16 color
  else ret tt.

Definition fillRect (x y w h color : Z) : M unit :=
  d <- self ;;
  if truthy w && truthy h then
    let '(x, w) := if w <? 0 then (i16 (x + (w + 1)), i16 (- w)) else (x, w) in
    if x <? _width d then
      let '(y, h) := if h <? 0 then (i16 (y + (h + 1)), i16 (- h)) else (y, h) in
      if y <? _height d then
        let x2 := i16 (x + w - 1) in
        if 0 <=? x2 then
          let y2 := i16 (y + h - 1) in
          if 0 <=? y2 then
            let '(x, w) := if x <? 0 then (0, i16 (x2 + 1)) else (x, w) in
            let '(y, h) := if y <? 0 then (0, i16 (y2 + 1)) else (y, h) in
            let w := if _width d <=? x2 then i16 (_width d - x) else w in
            let h := if _height d <=? y2 then i16 (_height d - y) else h in
            writeFillRectPreclipped x y w h color
          else ret tt
        else ret tt
      else ret tt
    else ret tt
  else ret tt.

Definition drawFastHLine (x y w color : Z) : M unit :=
  d <- self ;;
  if (0 <=? y) && (y <? _height d) && truthy w then
    let '(x, w) := if w <? 0 then (i16 (x + (w + 1)), i16 (- w)) else (x, w) in
    if x <? _width d then
      let x2 := i16 (x + w - 1) in
      if 0 <=? x2 then
        let '(x, w) := if x <? 0 then (0, i16 (x2 + 1)) else (x, w) in
        let w := if _width d <=? x2 then i16 (_width d - x) else w in
        writeFillRectPreclipped x y w 1 color
      else ret tt
    else ret tt
  else ret tt.

Definition drawFastVLine (x y h color : Z) : M unit :=
  d <- self ;;
  if (0 <=? x) && (x <? _width d) && truthy h then
    let '(y, h) := if h <? 0 then (i16 (y + (h + 1)), i16 (- h)) else (y, h) in
    if y <? _height d then
      let y2 := i16 (y + h - 1) in
      if 0 <=? y2 then
        let '(y, h) := if y <? 0 then (0, i16 (y2 + 1)) else (y, h) in
        let h := if _height d <=? y2 then i16 (_height d - y) else h in
        writeFillRectPreclipped x y 1 h color
      else ret tt
    else ret tt
  else ret tt.

Definition pushColor (color : Z) : M unit := SPI_WRITE16 color.

(** The loop [while (h--)] of [drawRGBBitmap]: one clipped row per
    iteration, the pointer advancing by the unclipped width. *)
Fixpoint drawRGBBitmap_rows (n : nat) (pcolors w saveW : Z) : M unit :=
  match n with
  | O => ret tt
  | S n' =>
      writePixels pcolors (u32 w) true false ;;
      drawRGBBitmap_rows n' (pcolors + saveW) w saveW
  end.

Definition drawRGBBitmap (x y pcolors w h : Z) : M unit :=
  d <- self ;;
  if _width d <=? x then ret tt
  else if _height d <=? y then ret tt
  else
    let x2 := i16 (x + w - 1) in
    if x2 <? 0 then ret tt
    else
      let y2 := i16 (y + h - 1) in
      if y2 <? 0 then ret tt
      else
        let saveW := w in
        let '(x, w, bx1) :=
          if x <? 0 then (0, i16 (w + x), i16 (- x)) else (x, w, 0) in
        let '(y, h, by1) :=
          if y <? 0 then (0, i16 (h + y), i16 (- y)) else (y, h, 0) in
        let w := if _width d <=? x2 then i16 (_width d - x) else w in
        let h := if _height d <=? y2 then i16 (_height d - y) else h in
        let pcolors := pcolors + (by1 * saveW + bx1) in
        setAddrWindow x y w h ;;
        drawRGBBitmap_rows (Z.to_nat (u16 h)) pcolors w saveW.

(** ** Miscellaneous member functions *)

Definition color565 (red green blue : Z) : Z :=
  u16 (Z.lor (Z.lor (Z.shiftl (Z.land red 248) 8)
                    (Z.shiftl (Z.land green 252) 3))
             (Z.shiftr blue 3)).



(** The loop of the overload taking [const uint8_t *dataBytes]: each
    iteration reads one 16-bit cell through the pointer and moves on by two
    bytes, that is by one cell. *)
Fixpoint sendCommand_const_loop (n : nat) (dataBytes : Z) : M unit :=
  match n with
  | O => ret tt
  | S n' =>
      v <- load dataBytes ;;
      SPI_WRITE16 v ;;
      sendCommand_const_loop n' (dataBytes + 1)
  end.

Definition sendCommand_const (commandByte dataBytes numDataBytes : Z)
  : M unit :=
  SPI_DC_LOW ;;
  spiWrite commandByte ;;
  SPI_DC_HIGH ;;
  sendCommand_const_loop (Z.to_nat numDataBytes) dataBytes.

Definition readcommand8 (commandByte index : Z) : M Z :=
  SPI_DC_LOW ;;
  spiWrite commandByte ;;
  SPI_DC_HIGH ;;
  ret 0.

Definition readcommand16 (addr : Z) : M Z := ret 0.

End Driver.

End SPITFT.
Import SPITFT.

(** ** Observing a trace *)

(** The bytes shifted out by [transfer], in order. *)
Fixpoint transfers (t : list event) : list Z :=
  match t with
  | [] => []
  | SpiTransfer b :: t' => b :: transfers t'
  | _ :: t' => transfers t'
  end.

(** The bracketed transactions of a trace, each with the bytes transferred
    inside it.  [cur] holds the bytes of the transaction that is open, if
    one is.  The result is [None] when the brackets are not well formed: a
    transaction begun inside another, an end or a transfer outside any, or
    a transaction left open. *)
Fixpoint brackets (cur : option (list Z)) (t : list event)
  : option (list (list Z)) :=
  match t with
  | [] => match cur with None => Some [] | Some _ => None end
  | SpiBeginTransaction _ :: t' =>
      match cur with None => brackets (Some []) t' | Some _ => None end
  | SpiTransfer b :: t' =>
      match cur with Some bs => brackets (Some (bs ++ [b])) t' | None => None end
  | SpiEndTransaction :: t' =>
      match cur with
      | Some bs => option_map (cons bs) (brackets None t')
      | None => None
      end
  | _ :: t' => brackets cur t'
  end.

Definition transactions (t : list event) : option (list (list Z)) :=
  brackets None t.

(** The settings of every transaction begun in a trace. *)
Fixpoint begun_with (t : list event) : list SPISettings :=
  match t with
  | [] => []
  | SpiBeginTransaction s :: t' => s :: begun_with t'
  | _ :: t' => begun_with t'
  end.

(** The addressing windows programmed in a trace. *)
Fixpoint windows (t : list event) : list (Z * Z * Z * Z) :=
  match t with
  | [] => []
  | SetAddrWindow x y w h :: t' => (x, y, w, h) :: windows t'
  | _ :: t' => windows t'
  end.

(** The two bytes of a 16-bit word as they go over the bus, high byte
    first, and the word two such bytes stand for. *)
Definition wire16 (w : Z) : list Z := [u8 (Z.shiftr w 8); u8 (Z.land w 255)].

Definition word_of (bs : list Z) : option Z :=
  match bs with
  | [hi; lo] => Some (hi * 256 + lo)
  | _ => None
  end.

(** ** Clipping of one axis *)

(** What [writeFillRect], [fillRect] and the line functions do to the
    origin [o] and the extent [e] of one axis of a surface of the given
    size, once the extent is known to be nonzero: normalise a negative
    extent, reject off the far side, compute the far edge, reject off the
    near side, clip.  [None] stands for a rejection. *)
Definition clip_axis (size o e : Z) : option (Z * Z) :=
  let '(o, e) := if e <? 0 then (i16 (o + (e + 1)), i16 (- e)) else (o, e) in
  if o <? size then
    let o2 := i16 (o + e - 1) in
    if 0 <=? o2 then
      let '(o, e) := if o <? 0 then (0, i16 (o2 + 1)) else (o, e) in
      let e := if size <=? o2 then i16 (size - o) else e in
      Some (o, e)
    else None
  else None.

(** ** Geometry of a request

    The notions the properties are stated with; they are not taken from the
    driver but say, in unbounded integers, what the clipping is about: the
    normalised origin and extent of a request on one axis, its far edge,
    whether the normalised interval meets [[0, size)], and their
    intersection as origin and extent. *)
Definition normalized (o e : Z) : Z * Z :=
  if e <? 0 then (o + e + 1, - e) else (o, e).

Definition far_edge (o e : Z) : Z :=
  let '(o', e') := normalized o e in o' + e' - 1.

Definition meets (size o e : Z) : bool :=
  let '(o', e') := normalized o e in
  Z.max o' 0 <? Z.min (o' + e') size.

Definition intersection (size o e : Z) : Z * Z :=
  let '(o', e') := normalized o e in
  (Z.max o' 0, Z.min (o' + e') size - Z.max o' 0).

(** A rectangle overlaps the surface when it meets it on both axes. *)
Definition overlaps (d : Adafruit_SPITFT) (x y w h : Z) : bool :=
  meets (_width d) x w && meets (_height d) y h.

(** The surface has positive [int16_t] dimensions. *)
Definition surface_ok (d : Adafruit_SPITFT) : Prop :=
  0 < _width d < 32768 /\ 0 < _height d < 32768.

(** ** A concrete display *)

Definition default_settings : SPISettings :=
  mkSPISettings 16000000 MSBFIRST SPI_MODE0.

(** A 100 x 100 surface in the hybrid connection. *)
Definition tft100 : Adafruit_SPITFT :=
  mkSPITFT 100 100 TFT_HYBRID_HWSPI_PARALLEL 4 5 6 7 8 true default_settings.

Definition world100 : World := mkWorld tft100 (fun _ => 0).

(** A memory holding a two-pixel buffer at address 16. *)
Definition ram_demo : memory :=
  fun a => if a =? 16 then 0x1234 else if a =? 17 then 0xABCD else 0.

(** ** Further member functions *)

(** The loop of [sendCommand16]: the command word is incremented, as a
    [uint16_t], after every iteration. *)
Fixpoint sendCommand16_loop (n : nat) (commandWord : Z) : M unit :=
  match n with
  | O => ret tt
  | S n' =>
      SPI_DC_LOW ;;
      SPI_WRITE16 commandWord ;;
      SPI_DC_HIGH ;;
      sendCommand16_loop n' (u16 (commandWord + 1))
  end.

Definition sendCommand16 (commandWord dataBytes numDataBytes : Z) : M unit :=
  (if numDataBytes =? 0
   then SPI_DC_LOW ;; SPI_WRITE16 commandWord ;; SPI_DC_HIGH
   else ret tt) ;;
  sendCommand16_loop (Z.to_nat numDataBytes) commandWord.

(** [invertDisplay]; the members [invertOnCommand] and [invertOffCommand]
    are declared in the header that is not among the sources and set by the
    display subclass, so they are taken as parameters. *)
Definition invertDisplay (invertOnCommand invertOffCommand : Z) (i : bool)
  : M unit :=
  writeCommand (if i then invertOnCommand else invertOffCommand).

(** ** Further observations of a trace *)

(** The milliseconds spent in [delay]. *)
Fixpoint total_delay (t : list event) : Z :=
  match t with
  | [] => 0
  | Delay ms :: t' => ms + total_delay t'
  | _ :: t' => total_delay t'
  end.

(** The bytes transferred, each with the level that the data/command pin
    [dc] has at that moment; [cur] is its level at the start. *)
Fixpoint tagged_transfers (dc : Z) (cur : level) (t : list event)
  : list (level * Z) :=
  match t with
  | [] => []
  | DigitalWrite pin l :: t' =>
      tagged_transfers dc (if pin =? dc then l else cur) t'
  | SpiTransfer b :: t' => (cur, b) :: tagged_transfers dc cur t'
  | _ :: t' => tagged_transfers dc cur t'
  end.

(** The level that pin [pin] is left at by a trace; [cur] is its level at
    the start. *)
Fixpoint level_after (pin : Z) (cur : level) (t : list event) : level :=
  match t with
  | [] => cur
  | DigitalWrite p l :: t' => level_after pin (if p =? pin then l else cur) t'
  | _ :: t' => level_after pin cur t'
  end.

(** The data/command pin is distinct from the pins that are strobed at
    the end of a transaction. *)
Definition dc_apart (d : Adafruit_SPITFT) : Prop :=
  _cs d <> _dc d /\ tft8_wr d <> _dc d.

(** The integers [0 .. n - 1] and the memory cells [p .. p + n - 1]. *)
Definition zseq (n : Z) : list Z := map Z.of_nat (seq 0 (Z.to_nat n)).

Definition cells (m : memory) (p n : Z) : list Z :=
  map (fun i => m (p + i)) (zseq n).

(** * Properties *)

(** ** Colour packing *)

(** Checking a decidable property on every value below a bound. *)
Lemma below_forallb (P : Z -> bool) (n : nat) :
  forallb P (map Z.of_nat (seq 0 n)) = true ->
  forall z, 0 <= z < Z.of_nat n -> P z = true.
Proof.
  intros H z Hz.
  rewrite forallb_forall in H. apply H.
  apply in_map_iff. exists (Z.to_nat z). split; [lia|].
  apply in_seq. lia.
Qed.

Lemma red_field (red : Z) :
  is_u8 red -> Z.shiftl (Z.land red 248) 8 = (red / 8) * 2048.
Proof.
  intros H.
  apply Z.eqb_eq.
  apply (below_forallb
           (fun r => Z.shiftl (Z.land r 248) 8 =? (r / 8) * 2048) 256);
    [vm_compute; reflexivity | exact H].
Qed.

Lemma green_field (green : Z) :
  is_u8 green -> Z.shiftl (Z.land green 252) 3 = (green / 4) * 32.
Proof.
  intros H.
  apply Z.eqb_eq.
  apply (below_forallb
           (fun g => Z.shiftl (Z.land g 252) 3 =? (g / 4) * 32) 256);
    [vm_compute; reflexivity | exact H].
Qed.

Lemma lor_low_bits (a b k : Z) :
  0 <= k -> 0 <= a -> 0 <= b < 2 ^ k -> Z.lor (a * 2 ^ k) b = a * 2 ^ k + b.
Proof.
  intros Hk Ha Hb.
  rewrite <- Z.shiftl_mul_pow2 by assumption.
  assert (D : Z.land (Z.shiftl a k) b = 0).
  { apply Z.bits_inj'. intros n Hn.
    rewrite Z.land_spec, Z.bits_0.
    destruct (Z.ltb_spec n k) as [L | L].
    - rewrite Z.shiftl_spec_low by lia. reflexivity.
    - assert (b = 0 \/ 0 < b) as [-> | Hpos] by lia.
      + rewrite Z.bits_0. apply andb_false_r.
      + rewrite (Z.bits_above_log2 b n), andb_false_r; [reflexivity | lia |].
        apply Z.lt_le_trans with k; [apply Z.log2_lt_pow2; lia | lia]. }
  rewrite <- Z.lxor_lor by exact D.
  symmetry. apply Z.add_nocarry_lxor. exact D.
Qed.

Lemma color565_fields (red green blue : Z) :
  is_u8 red -> is_u8 green -> is_u8 blue ->
  Z.lor (Z.lor (Z.shiftl (Z.land red 248) 8) (Z.shiftl (Z.land green 252) 3))
        (Z.shiftr blue 3)
  = (red / 8) * 2048 + (green / 4) * 32 + blue / 8.
Proof.
  intros Hr Hg Hb.
  rewrite red_field, green_field by assumption.
  rewrite Z.shiftr_div_pow2 by lia. change (2 ^ 3) with 8.
  unfold is_u8 in *.
  assert (0 <= red / 8 < 32) by (split; [apply Z.div_pos | apply Z.div_lt_upper_bound]; lia).
  assert (0 <= green / 4 < 64) by (split; [apply Z.div_pos | apply Z.div_lt_upper_bound]; lia).
  assert (0 <= blue / 8 < 32) by (split; [apply Z.div_pos | apply Z.div_lt_upper_bound]; lia).
  set (R := red / 8) in *. set (G := green / 4) in *. set (B := blue / 8) in *.
  assert (E1 : Z.lor (R * 2048) (G * 32) = (R * 64 + G) * 2 ^ 5).
  { change 2048 with (2 ^ 11). rewrite lor_low_bits.
    - change (2 ^ 11) with 2048. change (2 ^ 5) with 32. lia.
    - lia.
    - lia.
    - change (2 ^ 11) with 2048. lia. }
  rewrite E1, lor_low_bits.
  - change (2 ^ 5) with 32. lia.
  - lia.
  - lia.
  - change (2 ^ 5) with 32. lia.
Qed.

(** C9.  For 8-bit components [color565] returns
    [((red & 0xF8) << 8) | ((green & 0xFC) << 3) | (blue >> 3)] without any
    truncation, which places the top five bits of red, the top six of green
    and the top five of blue side by side in a 16-bit value; black packs to
    0x0000, white to 0xFFFF and pure red to 0xF800.  The function is a pure
    computation on its arguments. *)
Theorem color565_packs (red green blue : Z) :
  is_u8 red -> is_u8 green -> is_u8 blue ->
  color565 red green blue
    = Z.lor (Z.lor (Z.shiftl (Z.land red 248) 8)
                   (Z.shiftl (Z.land green 252) 3))
            (Z.shiftr blue 3)
  /\ color565 red green blue = (red / 8) * 2048 + (green / 4) * 32 + blue / 8
  /\ is_u16 (color565 red green blue)
  /\ color565 0 0 0 = 0
  /\ color565 255 255 255 = 65535
  /\ color565 255 0 0 = 63488.
Proof.
  intros Hr Hg Hb.
  pose proof (color565_fields red green blue Hr Hg Hb) as F.
  unfold is_u8 in *.
  assert (0 <= red / 8 < 32) by (split; [apply Z.div_pos | apply Z.div_lt_upper_bound]; lia).
  assert (0 <= green / 4 < 64) by (split; [apply Z.div_pos | apply Z.div_lt_upper_bound]; lia).
  assert (0 <= blue / 8 < 32) by (split; [apply Z.div_pos | apply Z.div_lt_upper_bound]; lia).
  assert (E : color565 red green blue
              = (red / 8) * 2048 + (green / 4) * 32 + blue / 8).
  { unfold color565, u16. rewrite F. apply Z.mod_small. lia. }
  repeat split; try reflexivity.
  - rewrite E, F. reflexivity.
  - exact E.
  - rewrite E. lia.
  - rewrite E. lia.
Qed.

Lemma color565_packs_witness :
  color565 18 52 86 = 4522
  /\ color565 18 52 86 = (18 / 8) * 2048 + (52 / 4) * 32 + 86 / 8.
Proof.
  destruct (color565_packs 18 52 86) as (A & B & _);
    [unfold is_u8; lia | unfold is_u8; lia | unfold is_u8; lia |].
  split; [rewrite A; reflexivity | exact B].
Defined.

(** ** Bus primitives *)

(** Unfolding the monad and the straight-line driver functions. *)
Ltac run :=
  cbv beta iota zeta delta
    [bind ret emit self load pinMode digitalWrite delay Serial_println
     spi_transfer spi_transfer16 setAddrWindow
     SPI_CS_HIGH SPI_CS_LOW SPI_DC_HIGH SPI_DC_LOW
     TFT_WR_STROBE TFT_CS_STROBE SPI_BEGIN_TRANSACTION SPI_END_TRANSACTION
     spiWrite writeCommand write16 writeCommand16 SPI_WRITE16 SPI_WRITE32
     startWrite endWrite pushColor
     value final trace app].

Lemma bind_run {A B : Type} (m : M A) (k : A -> M B) (s : World) :
  bind m k s
  = mkResult (value (k (value (m s)) (final (m s))))
             (final (k (value (m s)) (final (m s))))
             (trace (m s) ++ trace (k (value (m s)) (final (m s)))).
Proof. reflexivity. Qed.

Lemma land_255 (z : Z) : Z.land z 255 = z mod 256.
Proof. exact (Z.land_ones z 8 ltac:(lia)). Qed.

Lemma u8_small (z : Z) : is_u8 z -> u8 z = z.
Proof. unfold is_u8, u8. intros H. apply Z.mod_small. exact H. Qed.

Lemma SPI_WRITE16_final (w : Z) (st : World) : final (SPI_WRITE16 w st) = st.
Proof. reflexivity. Qed.

Lemma SPI_WRITE16_trace (w : Z) (st : World) :
  trace (SPI_WRITE16 w st)
  = [SpiBeginTransaction (hwspi_settings (this st));
     SerialPrintln (Z.land (Z.shiftr w 8) 255);
     SerialPrintln (Z.land w 255);
     SpiTransfer (u8 (Z.shiftr w 8));
     SpiTransfer (u8 (Z.land w 255));
     SpiEndTransaction;
     DigitalWrite (_cs (this st)) HIGH;
     DigitalWrite (_cs (this st)) LOW;
     DigitalWrite (tft8_wr (this st)) LOW;
     DigitalWrite (tft8_wr (this st)) HIGH].
Proof. reflexivity. Qed.

Lemma SPI_WRITE16_transactions (w : Z) (st : World) :
  transactions (trace (SPI_WRITE16 w st)) = Some [wire16 w].
Proof. reflexivity. Qed.

Lemma word_of_wire16 (w : Z) : is_u16 w -> word_of (wire16 w) = Some w.
Proof.
  unfold is_u16, wire16, word_of, u8. intros H.
  rewrite land_255, Z.shiftr_div_pow2 by lia. change (2 ^ 8) with 256.
  f_equal. rewrite Z.mod_mod by lia.
  rewrite (Z.mod_small (w / 256)) by
    (split; [apply Z.div_pos | apply Z.div_lt_upper_bound]; lia).
  pose proof (Z.div_mod w 256). lia.
Qed.



Lemma high_word_bytes (l : Z) :
  is_u32 l ->
  u8 (Z.shiftr l 24) = u8 (Z.shiftr (l / 65536) 8)
  /\ u8 (Z.shiftr l 16) = u8 (Z.land (l / 65536) 255)
  /\ u8 (Z.shiftr l 8) = u8 (Z.shiftr (l mod 65536) 8)
  /\ u8 l = u8 (Z.land (l mod 65536) 255).
Proof.
  unfold is_u32, u8. intros H.
  rewrite !land_255, !Z.shiftr_div_pow2 by lia.
  change (2 ^ 24) with 16777216. change (2 ^ 16) with 65536.
  change (2 ^ 8) with 256.
  rewrite !Z.mod_mod by lia.
  repeat split.
  - f_equal. rewrite Z.div_div by lia. reflexivity.
  - Z.div_mod_to_equations. lia.
  - Z.div_mod_to_equations. lia.
Qed.

(** C6.  [SPI_WRITE32 l] puts the long word on the bus as two transactions
    with a bracket each: first the high 16-bit word, then the low one, each
    high byte first, exactly as two successive [SPI_WRITE16] calls would;
    [0xAABBCCDD] goes out as the word [0xAABB] and then the word [0xCCDD]. *)
Theorem SPI_WRITE32_two_words (l : Z) (st : World) :
  is_u32 l ->
  trace (SPI_WRITE32 l st)
    = trace (SPI_WRITE16 (l / 65536) st)
      ++ trace (SPI_WRITE16 (l mod 65536) st)
  /\ transactions (trace (SPI_WRITE32 l st))
     = Some [wire16 (l / 65536); wire16 (l mod 65536)]
  /\ option_map (map word_of) (transactions (trace (SPI_WRITE32 l st)))
     = Some [Some (l / 65536); Some (l mod 65536)]
  /\ final (SPI_WRITE32 l st) = st
  /\ transactions (trace (SPI_WRITE32 0xAABBCCDD st))
     = Some [[0xAA; 0xBB]; [0xCC; 0xDD]]
  /\ option_map (map word_of)
       (transactions (trace (SPI_WRITE32 0xAABBCCDD st)))
     = Some [Some 0xAABB; Some 0xCCDD].
Proof.
  intros H.
  destruct (high_word_bytes l H) as (B3 & B2 & B1 & B0).
  assert (T : trace (SPI_WRITE32 l st)
              = trace (SPI_WRITE16 (l / 65536) st)
                ++ trace (SPI_WRITE16 (l mod 65536) st)).
  { rewrite !SPI_WRITE16_trace. run.
    rewrite B3, B2, B1, B0.
    rewrite !land_255. unfold u8. rewrite !Z.mod_mod by lia.
    reflexivity. }
  assert (X : transactions (trace (SPI_WRITE32 l st))
              = Some [wire16 (l / 65536); wire16 (l mod 65536)]).
  { rewrite T, !SPI_WRITE16_trace. reflexivity. }
  repeat split; try assumption; try reflexivity.
  rewrite X. cbn [option_map map].
  unfold is_u32 in H.
  rewrite !word_of_wire16; [reflexivity | |]; unfold is_u16.
  - apply Z.mod_pos_bound. lia.
  - split; [apply Z.div_pos | apply Z.div_lt_upper_bound]; lia.
Qed.

Lemma SPI_WRITE32_two_words_witness :
  transactions (trace (SPI_WRITE32 0x01020304 world100))
  = Some [wire16 (0x01020304 / 65536); wire16 (0x01020304 mod 65536)].
Proof.
  apply (SPI_WRITE32_two_words 0x01020304 world100). unfold is_u32. lia.
Defined.

(** ** Transfer settings *)

Lemma setSPISpeed_settings (DEFAULT_SPI_FREQ freq : Z) (st : World) :
  hwspi_settings (this (final (setSPISpeed DEFAULT_SPI_FREQ freq st)))
  = mkSPISettings DEFAULT_SPI_FREQ MSBFIRST SPI_MODE0.
Proof. reflexivity. Qed.

(** [initSPI], by contrast, does put a nonzero [freq] into the settings. *)
Lemma initSPI_settings (DEFAULT_SPI_FREQ freq spiMode : Z) (st : World) :
  freq <> 0 ->
  hwspi_settings (this (final (initSPI DEFAULT_SPI_FREQ freq spiMode st)))
  = mkSPISettings freq MSBFIRST SPI_MODE0.
Proof.
  intros H. unfold initSPI, truthy.
  destruct (Z.eqb_spec freq 0) as [E | _]; [contradiction|].
  simpl.
  destruct (0 <=? tft8_rd (this st)), (0 <=? _rst (this st)); reflexivity.
Qed.

(** C4.  With [DEFAULT_SPI_FREQ] at 16 MHz, [setSPISpeed 4000000] leaves
    the clock of the settings, and so of the next transaction, at 16 MHz:
    whatever [freq] is passed, the settings are rebuilt from
    [DEFAULT_SPI_FREQ], with [MSBFIRST] and [SPI_MODE0]. *)
Theorem setSPISpeed_ignores_freq :
  let st := final (setSPISpeed 16000000 4000000 world100) in
  begun_with (trace (SPI_WRITE16 0 st))
    = [mkSPISettings 16000000 MSBFIRST SPI_MODE0]
  /\ clock (hwspi_settings (this st)) <> 4000000
  /\ (forall d freq w s,
        begun_with (trace (SPI_WRITE16 w (final (setSPISpeed d freq s))))
        = [mkSPISettings d MSBFIRST SPI_MODE0]).
Proof.
  split; [reflexivity |].
  split; [cbn; lia |].
  intros d freq w s. reflexivity.
Qed.

(** ** Command dispatch *)


Lemma transfers_app (t u : list event) :
  transfers (t ++ u) = transfers t ++ transfers u.
Proof.
  induction t as [| e t IH]; [reflexivity|].
  destruct e; simpl; rewrite IH; reflexivity.
Qed.







(** ** Byte swapping *)

Lemma bswap16_arith (v : Z) :
  bswap16 v = (v mod 256) * 256 + (v / 256) mod 256.
Proof.
  unfold bswap16.
  rewrite !land_255, Z.shiftr_div_pow2, Z.shiftl_mul_pow2 by lia.
  apply lor_low_bits; [lia | |]; change (2 ^ 8) with 256.
  - apply Z.mod_pos_bound. lia.
  - apply Z.mod_pos_bound. lia.
Qed.

Lemma bswap16_involutive (v : Z) :
  is_u16 v -> bswap16 (bswap16 v) = v /\ is_u16 (bswap16 v).
Proof.
  unfold is_u16. intros H.
  rewrite (bswap16_arith (bswap16 v)), (bswap16_arith v).
  Z.div_mod_to_equations. lia.
Qed.

(** The loop of [swapBytes] from index [i] on: when the destination does
    not start inside the part of the source still to be read, the cells
    [dst + i .. dst + i + n - 1] receive the swapped source cells and
    nothing else changes. *)
Lemma swap_loop_spec (src dst : Z) (n : nat) :
  forall (i : Z) (st : World),
    0 <= i ->
    dst <= src \/ src + (i + Z.of_nat n) <= dst ->
    let r := for_from n i
               (fun i => v <- load (src + i) ;; store (dst + i) (bswap16 v))
               st in
    this (final r) = this st
    /\ trace r = []
    /\ forall a,
         ram (final r) a
         = if (dst + i <=? a) && (a <? dst + i + Z.of_nat n)
           then bswap16 (ram st (a - dst + src))
           else ram st a.
Proof.
  induction n as [| n IH]; intros i st Hi Hd.
  - cbn. repeat split. intros a.
    destruct (Z.leb_spec (dst + i) a), (Z.ltb_spec a (dst + i + 0));
      try reflexivity; lia.
  - cbn [for_from]. rewrite bind_run. cbn [final trace value].
    set (st1 := final ((v <- load (src + i) ;; store (dst + i) (bswap16 v)) st)).
    assert (R1 : forall a, ram st1 a
                           = if a =? dst + i then bswap16 (ram st (src + i))
                             else ram st a) by reflexivity.
    assert (T1 : this st1 = this st) by reflexivity.
    destruct (IH (i + 1) st1 ltac:(lia) ltac:(lia)) as (Ht & Htr & Hr).
    cbn zeta in Ht, Htr, Hr.
    repeat split.
    + rewrite Ht. exact T1.
    + rewrite Htr. reflexivity.
    + intros a. rewrite Hr, !R1.
      destruct (Z.leb_spec (dst + (i + 1)) a),
               (Z.ltb_spec a (dst + (i + 1) + Z.of_nat n)),
               (Z.leb_spec (dst + i) a),
               (Z.ltb_spec a (dst + i + Z.of_nat (S n)));
        cbn [andb]; try lia;
        repeat match goal with
               | |- context [?u =? ?v] => destruct (Z.eqb_spec u v)
               end;
        try reflexivity; try lia.
      replace (a - dst + src) with (src + i) by lia. reflexivity.
Qed.

Lemma swapBytes_spec (src len dest : Z) (st : World) :
  let dst := if truthy dest then dest else src in
  0 <= len ->
  dst <= src \/ src + len <= dst ->
  this (final (swapBytes src len dest st)) = this st
  /\ trace (swapBytes src len dest st) = []
  /\ forall a,
       ram (final (swapBytes src len dest st)) a
       = if (dst <=? a) && (a <? dst + len)
         then bswap16 (ram st (a - dst + src))
         else ram st a.
Proof.
  intros dst Hl Hd. unfold swapBytes. fold dst.
  destruct (swap_loop_spec src dst (Z.to_nat len) 0 st ltac:(lia) ltac:(lia))
    as (Ht & Hr & Hm).
  cbn zeta in Ht, Hr, Hm.
  repeat split; [exact Ht | exact Hr |].
  intros a. rewrite Hm.
  rewrite Z2Nat.id by lia. rewrite Z.add_0_r. reflexivity.
Qed.

(** Whatever the two pointers are, the loop writes only to the cells
    [dst + i .. dst + i + n - 1], emits nothing and leaves the driver
    object alone. *)
Lemma swap_loop_frame (src dst : Z) (n : nat) :
  forall (i : Z) (st : World),
    let r := for_from n i
               (fun i => v <- load (src + i) ;; store (dst + i) (bswap16 v))
               st in
    this (final r) = this st
    /\ trace r = []
    /\ forall a, ~ (dst + i <= a < dst + i + Z.of_nat n) ->
                 ram (final r) a = ram st a.
Proof.
  induction n as [| n IH]; intros i st.
  - cbn. repeat split.
  - cbn [for_from]. rewrite bind_run. cbn [final trace value].
    set (st1 := final ((v <- load (src + i) ;; store (dst + i) (bswap16 v)) st)).
    assert (R1 : forall a, ram st1 a
                           = if a =? dst + i then bswap16 (ram st (src + i))
                             else ram st a) by reflexivity.
    destruct (IH (i + 1) st1) as (Ht & Htr & Hr).
    cbn zeta in Ht, Htr, Hr.
    repeat split.
    + rewrite Ht. reflexivity.
    + rewrite Htr. reflexivity.
    + intros a Ha. rewrite Hr by lia. rewrite R1.
      destruct (Z.eqb_spec a (dst + i)); [lia | reflexivity].
Qed.

Lemma swapBytes_in_place (src len d : Z) (st : World) :
  0 <= len ->
  (forall a, src <= a < src + len -> is_u16 (ram st a)) ->
  (if truthy d then d else src) = src ->
  forall a,
    ram (final (swapBytes src len d (final (swapBytes src len d st)))) a
    = ram st a.
Proof.
  intros Hl Hc Hd a.
  set (st1 := final (swapBytes src len d st)).
  destruct (swapBytes_spec src len d st1) as (_ & _ & R2);
    [exact Hl | rewrite Hd; lia |].
  destruct (swapBytes_spec src len d st) as (_ & _ & R1);
    [exact Hl | rewrite Hd; lia |].
  rewrite Hd in R1, R2. fold st1 in R1.
  rewrite R2. replace (a - src + src) with a by lia. rewrite R1.
  replace (a - src + src) with a by lia.
  destruct (Z.leb_spec src a), (Z.ltb_spec a (src + len)); cbn [andb];
    try reflexivity.
  apply bswap16_involutive. apply Hc. lia.
Qed.

(** C8 (as amended).  On a buffer of [len] 16-bit values [swapBytes] is an
    involution: swapping in place twice (null or equal destination)
    restores every cell, and swapping into a destination buffer and from
    there back into the source restores the source when the two buffers
    are not null and do not overlap.  A call changes no memory cell
    outside the first [len] cells of its output buffer, emits nothing and
    leaves the driver object alone. *)
Theorem swapBytes_involution (src len : Z) (st : World) :
  is_u32 len ->
  (forall a, src <= a < src + len -> is_u16 (ram st a)) ->
  (forall a,
     ram (final (swapBytes src len 0 (final (swapBytes src len 0 st)))) a
     = ram st a)
  /\ (forall a,
        ram (final (swapBytes src len src
                      (final (swapBytes src len src st)))) a
        = ram st a)
  /\ (forall dest a,
        src <> 0 -> dest <> 0 ->
        dest + len <= src \/ src + len <= dest ->
        src <= a < src + len ->
        ram (final (swapBytes dest len src
                      (final (swapBytes src len dest st)))) a
        = ram st a)
  /\ (forall d a,
        let out := if truthy d then d else src in
        ~ (out <= a < out + len) ->
        ram (final (swapBytes src len d st)) a = ram st a)
  /\ (forall d,
        trace (swapBytes src len d st) = []
        /\ this (final (swapBytes src len d st)) = this st).
Proof.
  unfold is_u32. intros Hlen Hcells.
  split; [| split; [| split; [| split]]].
  - apply swapBytes_in_place; [lia | exact Hcells | reflexivity].
  - apply swapBytes_in_place; [lia | exact Hcells |].
    destruct (truthy src); reflexivity.
  - intros dest a Hs Hd Hdisj Ha.
    assert (Ts : truthy src = true)
      by (unfold truthy; destruct (Z.eqb_spec src 0);
          [contradiction | reflexivity]).
    assert (Td : truthy dest = true)
      by (unfold truthy; destruct (Z.eqb_spec dest 0);
          [contradiction | reflexivity]).
    set (st1 := final (swapBytes src len dest st)).
    destruct (swapBytes_spec dest len src st1) as (_ & _ & R2);
      [lia | rewrite Ts; lia |].
    destruct (swapBytes_spec src len dest st) as (_ & _ & R1);
      [lia | rewrite Td; lia |].
    rewrite Ts in R2. rewrite Td in R1. fold st1 in R1.
    rewrite R2.
    destruct (Z.leb_spec src a), (Z.ltb_spec a (src + len)); cbn [andb];
      try lia.
    rewrite R1.
    destruct (Z.leb_spec dest (a - src + dest)),
             (Z.ltb_spec (a - src + dest) (dest + len)); cbn [andb];
      try lia.
    replace (a - src + dest - dest + src) with a by lia.
    apply bswap16_involutive. apply Hcells. lia.
  - intros d a Ha. unfold swapBytes.
    destruct (swap_loop_frame src (if truthy d then d else src)
                (Z.to_nat len) 0 st) as (_ & _ & R).
    apply R. rewrite Z2Nat.id by lia. lia.
  - intros d. unfold swapBytes.
    destruct (swap_loop_frame src (if truthy d then d else src)
                (Z.to_nat len) 0 st) as (T & E & _).
    split; assumption.
Qed.

Lemma swapBytes_involution_witness :
  ram (final (swapBytes 32 2 16
                (final (swapBytes 16 2 32 (mkWorld tft100 ram_demo))))) 17
  = ram (mkWorld tft100 ram_demo) 17.
Proof.
  refine (proj1 (proj2 (proj2
            (swapBytes_involution 16 2 (mkWorld tft100 ram_demo) _ _)))
            32 17 _ _ _ _).
  - unfold is_u32. lia.
  - intros a Ha. unfold is_u16, ram, ram_demo.
    assert (a = 16 \/ a = 17) as [-> | ->] by lia; cbn; lia.
  - lia.
  - lia.
  - lia.
  - lia.
Defined.

(** Against C8 as stated: with a destination that overlaps the source the
    round trip loses data.  On the buffer [0x1234, 0xABCD] at address 16,
    [swapBytes(16, 2, 17)] followed by [swapBytes(17, 2, 16)] leaves
    [0x1234, 0x3412]: the second pixel was overwritten before it was
    read. *)
Lemma swapBytes_overlap_loses_data :
  let st0 := mkWorld tft100 ram_demo in
  let st2 := final (swapBytes 17 2 16 (final (swapBytes 16 2 17 st0))) in
  ram st0 16 = 0x1234 /\ ram st0 17 = 0xABCD
  /\ ram st2 16 = 0x1234 /\ ram st2 17 = 0x3412
  /\ ram st2 17 <> ram st0 17.
Proof.
  split; [reflexivity |].
  split; [reflexivity |].
  split; [vm_compute; reflexivity |].
  split; [vm_compute; reflexivity |].
  vm_compute. discriminate.
Qed.

(** ** Clipping *)

Lemma i16_spec (z : Z) :
  exists k, i16 z = z - 65536 * k /\ -32768 <= i16 z < 32768.
Proof.
  unfold i16. exists ((z + 32768) / 65536).
  Z.div_mod_to_equations. lia.
Qed.

(** Replace the innermost [i16 z] by a variable known only through
    [i16_spec]. *)
Ltac name_i16 :=
  match goal with
  | |- context [i16 ?z] =>
      lazymatch z with
      | context [i16 _] => fail
      | _ =>
          let k := fresh "k" in
          let E := fresh "E" in
          let B := fresh "B" in
          let v := fresh "v" in
          destruct (i16_spec z) as (k & E & B);
          set (v := i16 z) in *; clearbody v
      end
  | H : context [i16 ?z] |- _ =>
      lazymatch z with
      | context [i16 _] => fail
      | _ =>
          let k := fresh "k" in
          let E := fresh "E" in
          let B := fresh "B" in
          let v := fresh "v" in
          destruct (i16_spec z) as (k & E & B);
          set (v := i16 z) in *; clearbody v
      end
  end.

Ltac split_tests_in H :=
  repeat match type of H with
         | context [?a <? ?b] => destruct (Z.ltb_spec a b)
         | context [?a <=? ?b] => destruct (Z.leb_spec a b)
         end.

(** Whatever [clip_axis] lets through lies on the surface, is not empty and
    is the intersection of the request with the surface. *)
Lemma clip_axis_sound (size o e co ce : Z) :
  0 < size < 32768 -> is_i16 o -> is_i16 e -> e <> 0 ->
  clip_axis size o e = Some (co, ce) ->
  0 <= co /\ 0 < ce /\ co + ce <= size
  /\ meets size o e = true
  /\ intersection size o e = (co, ce).
Proof.
  unfold is_i16, clip_axis.
  intros Hs Ho He Hz H.
  assert (G : 0 <= co /\ 0 < ce /\ co + ce <= size
              /\ (let '(o', e') := normalized o e in
                  Z.max o' 0 = co /\ Z.min (o' + e') size = co + ce)).
  { unfold normalized.
    split_tests_in H; try discriminate; injection H as <- <-;
      destruct (Z.ltb_spec e 0); try lia; repeat name_i16; lia. }
  destruct G as (G1 & G2 & G3 & G4).
  unfold meets, intersection. destruct (normalized o e) as [o' e'].
  destruct G4 as [G4 G5].
  repeat split; try assumption.
  - apply Z.ltb_lt. lia.
  - f_equal; lia.
Qed.

(** A request that meets the surface and whose far edge is representable
    as an [int16_t] is let through, clipped to the intersection. *)
Lemma clip_axis_complete (size o e : Z) :
  0 < size < 32768 -> is_i16 o -> is_i16 e -> e <> 0 ->
  meets size o e = true ->
  far_edge o e <= 32767 ->
  clip_axis size o e = Some (intersection size o e).
Proof.
  intros Hs Ho He Hz Hm Hf.
  destruct (clip_axis size o e) as [[co ce] |] eqn:H.
  - destruct (clip_axis_sound size o e co ce Hs Ho He Hz H)
      as (_ & _ & _ & _ & ->).
    reflexivity.
  - exfalso. unfold meets, far_edge, normalized in Hm, Hf.
    unfold is_i16, clip_axis in *.
    destruct (Z.ltb_spec e 0); apply Z.ltb_lt in Hm;
      split_tests_in H; try discriminate; repeat name_i16; lia.
Qed.


Ltac split_ifs :=
  repeat match goal with
         | |- context [if ?c then _ else _] => destruct c
         end.

(** [fillRect] clips the two axes independently and hands the result to
    [writeFillRectPreclipped]. *)
Lemma fillRect_axes (x y w h color : Z) (st : World) :
  fillRect x y w h color st
  = if truthy w && truthy h then
      match clip_axis (_width (this st)) x w,
            clip_axis (_height (this st)) y h with
      | Some (cx, cw), Some (cy, ch) =>
          writeFillRectPreclipped cx cy cw ch color st
      | _, _ => ret tt st
      end
    else ret tt st.
Proof.
  unfold fillRect, clip_axis. rewrite bind_run.
  cbn [self value final trace app].
  split_ifs; reflexivity.
Qed.

Lemma drawFastHLine_axes (x y w color : Z) (st : World) :
  drawFastHLine x y w color st
  = if (0 <=? y) && (y <? _height (this st)) && truthy w then
      match clip_axis (_width (this st)) x w with
      | Some (cx, cw) => writeFillRectPreclipped cx y cw 1 color st
      | None => ret tt st
      end
    else ret tt st.
Proof.
  unfold drawFastHLine, clip_axis. rewrite bind_run.
  cbn [self value final trace app].
  split_ifs; reflexivity.
Qed.

Lemma drawFastVLine_axes (x y h color : Z) (st : World) :
  drawFastVLine x y h color st
  = if (0 <=? x) && (x <? _width (this st)) && truthy h then
      match clip_axis (_height (this st)) y h with
      | Some (cy, ch) => writeFillRectPreclipped x cy 1 ch color st
      | None => ret tt st
      end
    else ret tt st.
Proof.
  unfold drawFastVLine, clip_axis. rewrite bind_run.
  cbn [self value final trace app].
  split_ifs; reflexivity.
Qed.

Lemma times_const (body : M unit) (st : World) :
  final (body st) = st ->
  forall n,
    final (times n body st) = st
    /\ trace (times n body st) = concat (repeat (trace (body st)) n).
Proof.
  intros Hb. induction n as [| n [F T]].
  - split; reflexivity.
  - cbn [times]. rewrite bind_run. cbn [final trace value].
    rewrite Hb, F, T. split; reflexivity.
Qed.

Lemma windows_words (w : Z) (st : World) (n : nat) :
  windows (concat (repeat (trace (SPI_WRITE16 w st)) n)) = [].
Proof. induction n as [| n IH]; [reflexivity | exact IH]. Qed.

Lemma brackets_word (w : Z) (st : World) (rest : list event) :
  brackets None (trace (SPI_WRITE16 w st) ++ rest)
  = option_map (cons (wire16 w)) (brackets None rest).
Proof. reflexivity. Qed.

Lemma transactions_words (w : Z) (st : World) (n : nat) :
  transactions (concat (repeat (trace (SPI_WRITE16 w st)) n))
  = Some (repeat (wire16 w) n).
Proof.
  unfold transactions.
  induction n as [| n IH]; [reflexivity|].
  cbn [repeat concat]. rewrite brackets_word, IH. reflexivity.
Qed.

(** On a proper rectangle [writeFillRectPreclipped] programs the window
    once and then writes the colour [w * h] times, one bracketed 16-bit
    word each. *)
Lemma writeFillRectPreclipped_run (x y w h color : Z) (st : World) :
  0 < w < 32768 -> 0 < h < 32768 ->
  final (writeFillRectPreclipped x y w h color st) = st
  /\ trace (writeFillRectPreclipped x y w h color st)
     = SetAddrWindow x y w h
         :: concat (repeat (trace (SPI_WRITE16 color st)) (Z.to_nat (w * h)))
  /\ windows (trace (writeFillRectPreclipped x y w h color st))
     = [(x, y, w, h)]
  /\ transactions (trace (writeFillRectPreclipped x y w h color st))
     = Some (repeat (wire16 color) (Z.to_nat (w * h))).
Proof.
  intros Hw Hh.
  assert (E : u32 (u32 w * u32 h) = w * h).
  { unfold u32. rewrite (Z.mod_small w), (Z.mod_small h) by lia.
    apply Z.mod_small. nia. }
  assert (T : truthy (w * h) = true).
  { unfold truthy. destruct (Z.eqb_spec (w * h) 0); [nia | reflexivity]. }
  destruct (times_const (SPI_WRITE16 color) st eq_refl (Z.to_nat (w * h)))
    as [F R].
  assert (X : final (writeFillRectPreclipped x y w h color st) = st
              /\ trace (writeFillRectPreclipped x y w h color st)
                 = SetAddrWindow x y w h
                     :: concat (repeat (trace (SPI_WRITE16 color st))
                                       (Z.to_nat (w * h)))).
  { unfold writeFillRectPreclipped, writeColor. rewrite E, T.
    rewrite bind_run. cbn [final trace value].
    change (final (setAddrWindow x y w h st)) with st.
    rewrite F, R. split; reflexivity. }
  destruct X as [X1 X2].
  repeat split; try assumption.
  - rewrite X2. cbn [windows]. rewrite windows_words. reflexivity.
  - rewrite X2. unfold transactions. cbn [brackets].
    apply transactions_words.
Qed.

Lemma truthy_true (z : Z) : truthy z = true -> z <> 0.
Proof. unfold truthy. destruct (Z.eqb_spec z 0); [discriminate | auto]. Qed.

Lemma truthy_false (z : Z) : truthy z = false -> z = 0.
Proof. unfold truthy. destruct (Z.eqb_spec z 0); [auto | discriminate]. Qed.

Lemma meets_zero (size o : Z) : meets size o 0 = false.
Proof. unfold meets, normalized. cbn. apply Z.ltb_ge. lia. Qed.

Lemma meets_positive (size o e : Z) : meets size o e = true -> 0 < size.
Proof.
  unfold meets. destruct (normalized o e) as [o' e'].
  intros H. apply Z.ltb_lt in H. lia.
Qed.

(** Every call of [fillRect] on a surface of positive dimensions either
    does nothing or is one call of [writeFillRectPreclipped] on the
    intersection of the request with the surface. *)
Lemma fillRect_silent_or_clipped (x y w h color : Z) (st : World) :
  surface_ok (this st) ->
  is_i16 x -> is_i16 y -> is_i16 w -> is_i16 h ->
  fillRect x y w h color st = ret tt st
  \/ exists cx cy cw ch,
       fillRect x y w h color st
         = writeFillRectPreclipped cx cy cw ch color st
       /\ (0 <= cx /\ 0 < cw /\ cx + cw <= _width (this st))
       /\ (0 <= cy /\ 0 < ch /\ cy + ch <= _height (this st))
       /\ windows (trace (fillRect x y w h color st)) = [(cx, cy, cw, ch)]
       /\ transactions (trace (fillRect x y w h color st))
          = Some (repeat (wire16 color) (Z.to_nat (cw * ch)))
       /\ overlaps (this st) x y w h = true
       /\ intersection (_width (this st)) x w = (cx, cw)
       /\ intersection (_height (this st)) y h = (cy, ch).
Proof.
  intros [HW HH] Hx Hy Hw Hh.
  rewrite fillRect_axes.
  destruct (truthy w) eqn:Tw; [| left; reflexivity].
  destruct (truthy h) eqn:Th; [| left; reflexivity].
  cbn [andb].
  destruct (clip_axis (_width (this st)) x w) as [[cx cw] |] eqn:Cx;
    [| left; reflexivity].
  destruct (clip_axis (_height (this st)) y h) as [[cy ch] |] eqn:Cy;
    [| left; reflexivity].
  right. exists cx, cy, cw, ch.
  destruct (clip_axis_sound _ x w cx cw HW Hx Hw (truthy_true w Tw) Cx)
    as (X1 & X2 & X3 & X4 & X5).
  destruct (clip_axis_sound _ y h cy ch HH Hy Hh (truthy_true h Th) Cy)
    as (Y1 & Y2 & Y3 & Y4 & Y5).
  destruct (writeFillRectPreclipped_run cx cy cw ch color st)
    as (_ & _ & R3 & R4); [lia | lia |].
  unfold overlaps. rewrite X4, Y4.
  repeat split; assumption.
Qed.

(** A request that overlaps the surface and whose far edges are
    representable is not dropped. *)
Lemma fillRect_not_dropped (x y w h color : Z) (st : World) :
  surface_ok (this st) ->
  is_i16 x -> is_i16 y -> is_i16 w -> is_i16 h ->
  overlaps (this st) x y w h = true ->
  far_edge x w <= 32767 -> far_edge y h <= 32767 ->
  trace (fillRect x y w h color st) <> [].
Proof.
  intros [HW HH] Hx Hy Hw Hh Ho Fx Fy. unfold overlaps in Ho.
  apply andb_prop in Ho. destruct Ho as [Mx My].
  assert (Zw : w <> 0) by (intros ->; rewrite meets_zero in Mx; discriminate).
  assert (Zh : h <> 0) by (intros ->; rewrite meets_zero in My; discriminate).
  rewrite fillRect_axes.
  unfold truthy.
  destruct (Z.eqb_spec w 0); [contradiction|].
  destruct (Z.eqb_spec h 0); [contradiction|].
  cbn [negb andb].
  rewrite (clip_axis_complete _ x w HW Hx Hw Zw Mx Fx).
  rewrite (clip_axis_complete _ y h HH Hy Hh Zh My Fy).
  destruct (intersection (_width (this st)) x w) as [cx cw].
  destruct (intersection (_height (this st)) y h) as [cy ch].
  discriminate.
Qed.



(** C1.  The property that every rectangle overlapping the surface is
    clipped and passed on fails in the code where the far edge overflows:
    [x2] is an [int16_t], so for [fillRect(10, 0, 32767, 1)] it wraps to
    -32760 and the request, which covers the columns 10 to 99 of row 0 of
    the 100 x 100 surface, fails the test commented "Not off left": no
    rectangle is passed on and no pixel is transferred, where the
    intersection (10, 0, 90, 1) and 90 transfers are due. *)
Lemma fillRect_far_edge_wraps :
  overlaps tft100 10 0 32767 1 = true
  /\ intersection 100 10 32767 = (10, 90)
  /\ far_edge 10 32767 = 32776
  /\ i16 (10 + 32767 - 1) = -32760
  /\ fillRect 10 0 32767 1 0x07E0 world100 = ret tt world100
  /\ windows (trace (fillRect 10 0 32767 1 0x07E0 world100)) = []
  /\ transfers (trace (fillRect 10 0 32767 1 0x07E0 world100)) = [].
Proof.
  split; [reflexivity |].
  split; [reflexivity |].
  split; [reflexivity |].
  split; [vm_compute; reflexivity |].
  split; [vm_compute; reflexivity |].
  split; vm_compute; reflexivity.
Qed.

(** C10.  Each self-contained drawing function is the same computation as
    its lower-level counterpart: [drawPixel] as [writePixel], [fillRect]
    as [writeFillRect], and likewise the two line functions; the [draw]
    variants open no transaction of their own. *)
Theorem draw_is_write :
  (forall x y color, drawPixel x y color = writePixel x y color)
  /\ (forall x y w h color,
        fillRect x y w h color = writeFillRect x y w h color)
  /\ (forall x y w color,
        drawFastHLine x y w color = writeFastHLine x y w color)
  /\ (forall x y h color,
        drawFastVLine x y h color = writeFastVLine x y h color).
Proof.
  split; [| split; [| split]]; intros; reflexivity.
Qed.

(** ** Negative extents *)

Lemma i16_small (z : Z) : is_i16 z -> i16 z = z.
Proof.
  unfold is_i16, i16. intros H.
  rewrite Z.mod_small by lia. lia.
Qed.

(** C3 (as amended).  For a negative width other than -32768, [fillRect]
    behaves exactly as on the rectangle with the origin moved to
    [x + w + 1], converted to [int16_t], and the positive width [- w]; the
    same holds for a negative height other than -32768.  When the moved
    origin is representable the conversion leaves it as it is. *)
Theorem fillRect_negative_extent (x y w h color : Z) (st : World) :
  (-32768 < w < 0 ->
   fillRect x y w h color st
   = fillRect (i16 (x + w + 1)) y (- w) h color st)
  /\ (-32768 < h < 0 ->
      fillRect x y w h color st
      = fillRect x (i16 (y + h + 1)) w (- h) color st)
  /\ (-32768 < w < 0 -> is_i16 (x + w + 1) ->
      fillRect x y w h color st = fillRect (x + w + 1) y (- w) h color st)
  /\ (-32768 < h < 0 -> is_i16 (y + h + 1) ->
      fillRect x y w h color st = fillRect x (y + h + 1) w (- h) color st).
Proof.
  assert (W : -32768 < w < 0 ->
              fillRect x y w h color st
              = fillRect (i16 (x + w + 1)) y (- w) h color st).
  { intros Hw. unfold fillRect. rewrite !bind_run.
    cbn [self value final trace app].
    assert (T : truthy (- w) = truthy w).
    { unfold truthy. destruct (Z.eqb_spec w 0), (Z.eqb_spec (- w) 0);
        try reflexivity; lia. }
    rewrite T.
    replace (w <? 0) with true by (symmetry; apply Z.ltb_lt; lia).
    replace (- w <? 0) with false by (symmetry; apply Z.ltb_ge; lia).
    rewrite (i16_small (- w)) by (unfold is_i16; lia).
    rewrite Z.add_assoc. reflexivity. }
  assert (H : -32768 < h < 0 ->
              fillRect x y w h color st
              = fillRect x (i16 (y + h + 1)) w (- h) color st).
  { intros Hh. unfold fillRect. rewrite !bind_run.
    cbn [self value final trace app].
    assert (T : truthy (- h) = truthy h).
    { unfold truthy. destruct (Z.eqb_spec h 0), (Z.eqb_spec (- h) 0);
        try reflexivity; lia. }
    rewrite T.
    replace (h <? 0) with true by (symmetry; apply Z.ltb_lt; lia).
    replace (- h <? 0) with false by (symmetry; apply Z.ltb_ge; lia).
    rewrite (i16_small (- h)) by (unfold is_i16; lia).
    rewrite (Z.add_assoc y h 1). reflexivity. }
  split; [exact W |]. split; [exact H |].
  split.
  - intros Hw Hr. rewrite (W Hw), (i16_small _ Hr). reflexivity.
  - intros Hh Hr. rewrite (H Hh), (i16_small _ Hr). reflexivity.
Qed.

Lemma fillRect_negative_extent_witness :
  fillRect 30 50 (-20) 10 0x07E0 world100
  = fillRect (30 + -20 + 1) 50 (- -20) 10 0x07E0 world100.
Proof.
  apply (fillRect_negative_extent 30 50 (-20) 10 0x07E0 world100).
  - lia.
  - unfold is_i16. lia.
Defined.

(** At the width -32768 the equation of C3 fails: the negated width is
    again -32768, so that the rewritten call is normalised a second time.
    [fillRect(50, 0, -32768, 1)] fills the columns 0 to 50 of row 0, the
    rewritten call is rejected. *)
Lemma fillRect_min_width_differs :
  windows (trace (fillRect 50 0 (-32768) 1 0x07E0 world100)) = [(0, 0, 51, 1)]
  /\ i16 (50 + -32768 + 1) = -32717
  /\ i16 (- -32768) = -32768
  /\ trace (fillRect (i16 (50 + -32768 + 1)) 0 (i16 (- -32768)) 1 0x07E0
              world100) = []
  /\ fillRect 50 0 (-32768) 1 0x07E0 world100
     <> fillRect (i16 (50 + -32768 + 1)) 0 (i16 (- -32768)) 1 0x07E0
          world100.
Proof.
  assert (A : windows (trace (fillRect 50 0 (-32768) 1 0x07E0 world100))
              = [(0, 0, 51, 1)]) by (vm_compute; reflexivity).
  assert (B : trace (fillRect (i16 (50 + -32768 + 1)) 0 (i16 (- -32768)) 1
                       0x07E0 world100) = []) by (vm_compute; reflexivity).
  split; [exact A |].
  split; [vm_compute; reflexivity |].
  split; [vm_compute; reflexivity |].
  split; [exact B |].
  intros E. rewrite E, B in A. discriminate A.
Qed.

(** ** Rejected requests *)








(** * Further properties *)

(** ** Pixels, lines and rectangles *)

Lemma clip_axis_unit (size o : Z) :
  is_i16 o ->
  clip_axis size o 1
  = if (0 <=? o) && (o <? size) then Some (o, 1) else None.
Proof.
  intros Ho. unfold clip_axis. cbn [Z.ltb Z.compare].
  replace (o + 1 - 1) with o by lia. rewrite (i16_small o Ho).
  destruct (Z.ltb_spec o size), (Z.leb_spec 0 o); cbn [andb];
    try reflexivity.
  destruct (Z.ltb_spec o 0); [lia|].
  destruct (Z.leb_spec size o); [lia | reflexivity].
Qed.

(** A request that lies on the surface passes through [clip_axis] as it
    is. *)
Lemma clip_axis_inside (size o e : Z) :
  size < 32768 -> 0 <= o -> 0 < e -> o + e <= size ->
  clip_axis size o e = Some (o, e).
Proof.
  intros Hs Ho He Hb.
  rewrite clip_axis_complete; unfold is_i16, meets, far_edge, intersection,
    normalized; try lia.
  - destruct (Z.ltb_spec e 0); [lia|]. f_equal. f_equal; lia.
  - destruct (Z.ltb_spec e 0); [lia|]. apply Z.ltb_lt. lia.
  - destruct (Z.ltb_spec e 0); lia.
Qed.

(** X1.  [drawPixel x y color] is [fillRect x y 1 1 color]: on the surface
    it programs the window [(x, y, 1, 1)] and sends the colour as one
    bracketed word, off the surface it does nothing at all. *)
Theorem drawPixel_is_unit_rect (x y color : Z) (st : World) :
  is_i16 x -> is_i16 y ->
  drawPixel x y color st = fillRect x y 1 1 color st
  /\ (0 <= x < _width (this st) -> 0 <= y < _height (this st) ->
      windows (trace (drawPixel x y color st)) = [(x, y, 1, 1)]
      /\ transactions (trace (drawPixel x y color st))
         = Some [wire16 color])
  /\ (~ (0 <= x < _width (this st) /\ 0 <= y < _height (this st)) ->
      drawPixel x y color st = ret tt st).
Proof.
  intros Hx Hy.
  assert (D : drawPixel x y color st
              = if (0 <=? x) && (x <? _width (this st))
                   && (0 <=? y) && (y <? _height (this st))
                then writeFillRectPreclipped x y 1 1 color st
                else ret tt st).
  { unfold drawPixel. rewrite bind_run. cbn [self value final trace app].
    destruct ((0 <=? x) && (x <? _width (this st))
              && (0 <=? y) && (y <? _height (this st))); reflexivity. }
  split; [| split].
  - rewrite D, fillRect_axes, !clip_axis_unit by assumption.
    cbn [truthy Z.eqb negb andb].
    destruct (0 <=? x), (x <? _width (this st)),
             (0 <=? y), (y <? _height (this st)); reflexivity.
  - intros Bx By. rewrite D.
    destruct (Z.leb_spec 0 x), (Z.ltb_spec x (_width (this st))),
             (Z.leb_spec 0 y), (Z.ltb_spec y (_height (this st)));
      try lia.
    cbn [andb]. split; reflexivity.
  - intros N. rewrite D.
    destruct (Z.leb_spec 0 x), (Z.ltb_spec x (_width (this st))),
             (Z.leb_spec 0 y), (Z.ltb_spec y (_height (this st)));
      cbn [andb]; try reflexivity.
    exfalso. apply N. lia.
Qed.

Lemma drawPixel_is_unit_rect_witness :
  drawPixel 3 4 0xF800 world100 = fillRect 3 4 1 1 0xF800 world100.
Proof.
  refine (proj1 (drawPixel_is_unit_rect 3 4 0xF800 world100 _ _));
    unfold is_i16; lia.
Defined.

(** X2.  A fast line is a rectangle one pixel thick: [drawFastHLine x y w]
    is [fillRect x y w 1] and [drawFastVLine x y h] is [fillRect x y 1 h],
    and the same holds for the [write] variants. *)
Theorem fast_lines_are_thin_rects (x y e color : Z) (st : World) :
  is_i16 x -> is_i16 y ->
  drawFastHLine x y e color st = fillRect x y e 1 color st
  /\ drawFastVLine x y e color st = fillRect x y 1 e color st
  /\ writeFastHLine x y e color st = writeFillRect x y e 1 color st
  /\ writeFastVLine x y e color st = writeFillRect x y 1 e color st.
Proof.
  intros Hx Hy.
  assert (Hl : drawFastHLine x y e color st = fillRect x y e 1 color st).
  { rewrite drawFastHLine_axes, fillRect_axes, clip_axis_unit by assumption.
    cbn [truthy Z.eqb negb]. rewrite andb_true_r.
    destruct (truthy e); [| rewrite andb_false_r; reflexivity].
    rewrite andb_true_r.
    destruct ((0 <=? y) && (y <? _height (this st)));
      destruct (clip_axis (_width (this st)) x e) as [[cx cw] |];
      reflexivity. }
  assert (Vl : drawFastVLine x y e color st = fillRect x y 1 e color st).
  { rewrite drawFastVLine_axes, fillRect_axes, clip_axis_unit by assumption.
    cbn [truthy Z.eqb negb andb].
    destruct (truthy e); [| rewrite andb_false_r; reflexivity].
    rewrite andb_true_r.
    destruct ((0 <=? x) && (x <? _width (this st))); reflexivity. }
  split; [exact Hl |]. split; [exact Vl |].
  split; [exact Hl | exact Vl].
Qed.

Lemma fast_lines_are_thin_rects_witness :
  drawFastHLine (-5) 7 20 0x001F world100
  = fillRect (-5) 7 20 1 0x001F world100.
Proof.
  refine (proj1 (fast_lines_are_thin_rects (-5) 7 20 0x001F world100 _ _));
    unfold is_i16; lia.
Defined.

(** X3.  A rectangle that lies on the surface is passed to
    [writeFillRectPreclipped] as it is, and clipping is idempotent: a
    request that overlaps the surface, with representable far edges, is
    drawn exactly as its intersection with the surface is. *)
Theorem fillRect_inside_and_idempotent (x y w h color : Z) (st : World) :
  is_i16 (_width (this st)) -> is_i16 (_height (this st)) ->
  is_i16 x -> is_i16 y -> is_i16 w -> is_i16 h ->
  (0 <= x -> 0 < w -> x + w <= _width (this st) ->
   0 <= y -> 0 < h -> y + h <= _height (this st) ->
   fillRect x y w h color st = writeFillRectPreclipped x y w h color st)
  /\ (overlaps (this st) x y w h = true ->
      far_edge x w <= 32767 -> far_edge y h <= 32767 ->
      forall cx cy cw ch,
        intersection (_width (this st)) x w = (cx, cw) ->
        intersection (_height (this st)) y h = (cy, ch) ->
        fillRect x y w h color st = fillRect cx cy cw ch color st).
Proof.
  intros IW IH Hx Hy Hw Hh.
  assert (In : forall a b c d,
             0 <= a -> 0 < c -> a + c <= _width (this st) ->
             0 <= b -> 0 < d -> b + d <= _height (this st) ->
             fillRect a b c d color st
             = writeFillRectPreclipped a b c d color st).
  { intros a b c d A1 A2 A3 B1 B2 B3. unfold is_i16 in IW, IH.
    rewrite fillRect_axes.
    rewrite (clip_axis_inside _ a c), (clip_axis_inside _ b d) by lia.
    unfold truthy.
    destruct (Z.eqb_spec c 0); [lia|]. destruct (Z.eqb_spec d 0); [lia|].
    reflexivity. }
  split; [apply In |].
  intros Ho Fx Fy cx cy cw ch Ix Iy.
  assert (S : surface_ok (this st)).
  { unfold overlaps in Ho. apply andb_prop in Ho. destruct Ho as [Mx My].
    apply meets_positive in Mx, My. unfold surface_ok, is_i16 in *. lia. }
  pose proof (fillRect_not_dropped x y w h color st S Hx Hy Hw Hh Ho Fx Fy)
    as N.
  destruct (fillRect_silent_or_clipped x y w h color st S Hx Hy Hw Hh)
    as [E | (cx' & cy' & cw' & ch' & E & Bx & By & _ & _ & _ & Ix' & Iy')].
  - rewrite E in N. contradiction N. reflexivity.
  - rewrite Ix in Ix'. rewrite Iy in Iy'.
    injection Ix' as <- <-. injection Iy' as <- <-.
    rewrite E. symmetry. apply In; lia.
Qed.

Lemma fillRect_inside_and_idempotent_witness :
  fillRect 90 (-5) 30 10 0x07E0 world100 = fillRect 90 0 10 5 0x07E0 world100.
Proof.
  refine (proj2 (fillRect_inside_and_idempotent 90 (-5) 30 10 0x07E0 world100
                   _ _ _ _ _ _) _ _ _ 90 0 10 5 _ _);
    try (unfold is_i16; cbn; lia); try reflexivity; cbn; lia.
Defined.

(** ** Colour fields *)

(** X4.  The packed colour determines, and is determined by, the top five
    bits of red, the top six bits of green and the top five bits of blue:
    they are read back as [c / 2048], [(c / 32) mod 64] and [c mod 32], and
    two colours pack to the same value exactly when these agree. *)
Theorem color565_unpack (r g b r' g' b' : Z) :
  is_u8 r -> is_u8 g -> is_u8 b -> is_u8 r' -> is_u8 g' -> is_u8 b' ->
  (color565 r g b / 2048 = r / 8
   /\ (color565 r g b / 32) mod 64 = g / 4
   /\ color565 r g b mod 32 = b / 8)
  /\ (color565 r g b = color565 r' g' b'
      <-> r / 8 = r' / 8 /\ g / 4 = g' / 4 /\ b / 8 = b' / 8).
Proof.
  assert (E : forall r g b, is_u8 r -> is_u8 g -> is_u8 b ->
              color565 r g b = (r / 8) * 2048 + (g / 4) * 32 + b / 8
              /\ 0 <= r / 8 < 32 /\ 0 <= g / 4 < 64 /\ 0 <= b / 8 < 32).
  { intros r0 g0 b0 Hr Hg Hb.
    pose proof (color565_fields r0 g0 b0 Hr Hg Hb) as F.
    unfold is_u8 in *.
    assert (0 <= r0 / 8 < 32)
      by (split; [apply Z.div_pos | apply Z.div_lt_upper_bound]; lia).
    assert (0 <= g0 / 4 < 64)
      by (split; [apply Z.div_pos | apply Z.div_lt_upper_bound]; lia).
    assert (0 <= b0 / 8 < 32)
      by (split; [apply Z.div_pos | apply Z.div_lt_upper_bound]; lia).
    repeat split; try lia.
    unfold color565, u16. rewrite F. apply Z.mod_small. lia. }
  intros Hr Hg Hb Hr' Hg' Hb'.
  destruct (E r g b Hr Hg Hb) as (-> & R1 & G1 & B1).
  destruct (E r' g' b' Hr' Hg' Hb') as (-> & R2 & G2 & B2).
  generalize dependent (r / 8). generalize dependent (g / 4).
  generalize dependent (b / 8). generalize dependent (r' / 8).
  generalize dependent (g' / 4). generalize dependent (b' / 8).
  intros B' HB' G' HG' R' HR' B HB G HG R HR.
  split; [| split; [lia | intros (-> & -> & ->); reflexivity]].
  repeat split; Z.div_mod_to_equations; lia.
Qed.

Lemma color565_unpack_witness :
  color565 200 100 50 / 2048 = 200 / 8.
Proof.
  refine (proj1 (proj1 (color565_unpack 200 100 50 0 0 0 _ _ _ _ _ _)));
    unfold is_u8; lia.
Defined.

(** ** Streams of pixels *)

Lemma brackets_app (t1 t2 : list event) :
  forall cur l1,
    brackets cur t1 = Some l1 ->
    brackets cur (t1 ++ t2) = option_map (app l1) (brackets None t2).
Proof.
  induction t1 as [| e t1 IH]; intros cur l1 H.
  - destruct cur; [discriminate|]. injection H as <-.
    cbn. destruct (brackets None t2); reflexivity.
  - destruct e; cbn [app brackets] in *; try (apply IH; exact H).
    + destruct cur; [discriminate | apply IH; exact H].
    + destruct cur; [apply IH; exact H | discriminate].
    + destruct cur as [bs |]; [| discriminate].
      destruct (brackets None t1) as [l |] eqn:B; [| discriminate].
      injection H as <-. rewrite (IH None l B).
      destruct (brackets None t2); reflexivity.
Qed.

Lemma transactions_app (t1 t2 : list event) (l1 l2 : list (list Z)) :
  transactions t1 = Some l1 -> transactions t2 = Some l2 ->
  transactions (t1 ++ t2) = Some (l1 ++ l2).
Proof.
  unfold transactions. intros H1 H2.
  rewrite (brackets_app t1 t2 None l1 H1), H2. reflexivity.
Qed.

Lemma transactions_word_list (st : World) (l : list Z) :
  transactions (concat (map (fun v => trace (SPI_WRITE16 v st)) l))
  = Some (map wire16 l).
Proof.
  unfold transactions.
  induction l as [| v l IH]; [reflexivity|].
  cbn [map concat]. rewrite brackets_word, IH. reflexivity.
Qed.

Lemma windows_word_list (st : World) (l : list Z) :
  windows (concat (map (fun v => trace (SPI_WRITE16 v st)) l)) = [].
Proof. induction l as [| v l IH]; [reflexivity | exact IH]. Qed.

Lemma cells_succ (m : memory) (p : Z) (n : nat) :
  map (fun i => m (p + i)) (map Z.of_nat (seq 0 (S n)))
  = m p :: map (fun i => m (p + 1 + i)) (map Z.of_nat (seq 0 n)).
Proof.
  cbn [seq map]. rewrite Z.add_0_r. f_equal.
  rewrite <- seq_shift, !map_map.
  apply map_ext. intros a. f_equal. lia.
Qed.

(** The pixel loop reads the cells from [colors] on, one after the other,
    and sends each as a word. *)
Lemma writePixels_loop_run (n : nat) :
  forall (colors : Z) (st : World),
    final (writePixels_loop n colors st) = st
    /\ trace (writePixels_loop n colors st)
       = concat (map (fun v => trace (SPI_WRITE16 v st))
                     (map (fun i => ram st (colors + i))
                          (map Z.of_nat (seq 0 n)))).
Proof.
  induction n as [| n IH]; intros colors st.
  - split; reflexivity.
  - destruct (IH (colors + 1) st) as [F T].
    rewrite cells_succ.
    cbn [writePixels_loop]. rewrite !bind_run.
    cbn [load value final trace app].
    change (final (SPI_WRITE16 (ram st colors) st)) with st.
    rewrite F, T. split; reflexivity.
Qed.

Lemma writePixels_run (colors len : Z) (block bigEndian : bool) (st : World) :
  0 <= len ->
  final (writePixels colors len block bigEndian st) = st
  /\ trace (writePixels colors len block bigEndian st)
     = concat (map (fun v => trace (SPI_WRITE16 v st))
                   (cells (ram st) colors len)).
Proof.
  intros Hl. unfold writePixels, truthy, cells, zseq.
  destruct (Z.eqb_spec len 0) as [-> | N]; cbn [negb].
  - split; reflexivity.
  - apply writePixels_loop_run.
Qed.

(** X5.  [writePixels colors len] leaves the memory alone and sends the
    [len] cells from [colors] on in order, each as one bracketed word with
    the high byte first; it programs no window, and neither [block] nor
    [bigEndian] changes anything: no byte is swapped. *)
Theorem writePixels_streams
  (colors len : Z) (block bigEndian : bool) (st : World) :
  0 <= len ->
  final (writePixels colors len block bigEndian st) = st
  /\ transactions (trace (writePixels colors len block bigEndian st))
     = Some (map wire16 (cells (ram st) colors len))
  /\ windows (trace (writePixels colors len block bigEndian st)) = []
  /\ (forall block' bigEndian',
        writePixels colors len block' bigEndian' st
        = writePixels colors len block bigEndian st).
Proof.
  intros Hl.
  destruct (writePixels_run colors len block bigEndian st Hl) as [F T].
  split; [exact F |].
  split; [rewrite T; apply transactions_word_list |].
  split; [rewrite T; apply windows_word_list |].
  intros block' bigEndian'. reflexivity.
Qed.

Lemma writePixels_streams_witness :
  transactions (trace (writePixels 16 2 true false (mkWorld tft100 ram_demo)))
  = Some (map wire16 (cells ram_demo 16 2)).
Proof.
  refine (proj1 (proj2 (writePixels_streams 16 2 true false
                          (mkWorld tft100 ram_demo) _))).
  lia.
Defined.



(** ** Command and data mode *)

Lemma tagged_transfers_app (dc : Z) (t1 t2 : list event) :
  forall cur,
    tagged_transfers dc cur (t1 ++ t2)
    = tagged_transfers dc cur t1
      ++ tagged_transfers dc (level_after dc cur t1) t2.
Proof.
  induction t1 as [| e t1 IH]; intros cur; [reflexivity|].
  destruct e; cbn [app tagged_transfers level_after]; rewrite ?IH;
    reflexivity.
Qed.

Lemma level_after_app (pin : Z) (t1 t2 : list event) :
  forall cur,
    level_after pin cur (t1 ++ t2)
    = level_after pin (level_after pin cur t1) t2.
Proof.
  induction t1 as [| e t1 IH]; intros cur; [reflexivity|].
  destruct e; cbn [app level_after]; rewrite ?IH; reflexivity.
Qed.

Lemma word_keeps_mode (w : Z) (st : World) (cur : level) :
  dc_apart (this st) ->
  tagged_transfers (_dc (this st)) cur (trace (SPI_WRITE16 w st))
  = map (pair cur) (wire16 w)
  /\ level_after (_dc (this st)) cur (trace (SPI_WRITE16 w st)) = cur.
Proof.
  intros [H1 H2]. rewrite SPI_WRITE16_trace.
  cbn [tagged_transfers level_after map wire16].
  destruct (Z.eqb_spec (_cs (this st)) (_dc (this st))); [contradiction|].
  destruct (Z.eqb_spec (tft8_wr (this st)) (_dc (this st)));
    [contradiction|].
  split; reflexivity.
Qed.

Lemma words_keep_mode (st : World) (cur : level) (l : list Z) :
  dc_apart (this st) ->
  tagged_transfers (_dc (this st)) cur
    (concat (map (fun v => trace (SPI_WRITE16 v st)) l))
  = map (pair cur) (concat (map wire16 l))
  /\ level_after (_dc (this st)) cur
       (concat (map (fun v => trace (SPI_WRITE16 v st)) l)) = cur.
Proof.
  intros Hd. induction l as [| v l [IH1 IH2]]; [split; reflexivity|].
  destruct (word_keeps_mode v st cur Hd) as [W1 W2].
  cbn [map concat].
  rewrite tagged_transfers_app, level_after_app, W1, W2, IH1, IH2.
  rewrite map_app. split; reflexivity.
Qed.

Lemma sendCommand_const_loop_is_pixel_loop (n : nat) :
  forall p st, sendCommand_const_loop n p st = writePixels_loop n p st.
Proof.
  induction n as [| n IH]; intros p st; [reflexivity|].
  cbn [sendCommand_const_loop writePixels_loop].
  rewrite !bind_run. cbn [load value final trace app].
  rewrite IH. reflexivity.
Qed.

Lemma sendCommand_const_run (commandByte dataBytes numDataBytes : Z)
      (st : World) :
  final (sendCommand_const commandByte dataBytes numDataBytes st) = st
  /\ trace (sendCommand_const commandByte dataBytes numDataBytes st)
     = (DigitalWrite (_dc (this st)) LOW :: trace (spiWrite commandByte st))
       ++ DigitalWrite (_dc (this st)) HIGH
          :: concat (map (fun v => trace (SPI_WRITE16 v st))
                         (cells (ram st) dataBytes numDataBytes)).
Proof.
  destruct (writePixels_loop_run (Z.to_nat numDataBytes) dataBytes st)
    as [F T].
  unfold sendCommand_const. rewrite !bind_run.
  cbn [value final trace].
  change (final (SPI_DC_LOW st)) with st.
  change (final (spiWrite commandByte st)) with st.
  change (final (SPI_DC_HIGH st)) with st.
  rewrite sendCommand_const_loop_is_pixel_loop, F, T.
  split; reflexivity.
Qed.

(** X7.  The overload of [sendCommand] taking a const pointer sends the
    command byte twice in one bracket and then [numDataBytes] 16-bit cells
    read through the pointer, one bracketed word each: twice as many bytes
    as [numDataBytes] says.  With the data/command pin apart from the
    strobed pins, the command goes out in command mode (pin low) and every
    payload byte in data mode (pin high); the memory is left as it was. *)
Theorem sendCommand_const_streams
  (commandByte dataBytes numDataBytes : Z) (st : World) (cur : level) :
  is_u8 commandByte ->
  final (sendCommand_const commandByte dataBytes numDataBytes st) = st
  /\ transactions
       (trace (sendCommand_const commandByte dataBytes numDataBytes st))
     = Some ([commandByte; commandByte]
               :: map wire16 (cells (ram st) dataBytes numDataBytes))
  /\ (0 <= numDataBytes ->
      Z.of_nat (length (transfers
         (trace (sendCommand_const commandByte dataBytes numDataBytes st))))
      = 2 + 2 * numDataBytes)
  /\ (dc_apart (this st) ->
      tagged_transfers (_dc (this st)) cur
        (trace (sendCommand_const commandByte dataBytes numDataBytes st))
      = (LOW, commandByte) :: (LOW, commandByte)
          :: map (pair HIGH)
               (concat (map wire16
                            (cells (ram st) dataBytes numDataBytes)))).
Proof.
  intros Hc.
  destruct (sendCommand_const_run commandByte dataBytes numDataBytes st)
    as [F T].
  split; [exact F |].
  split; [| split].
  - rewrite T.
    apply (transactions_app _ _ [[commandByte; commandByte]]).
    + run. rewrite (u8_small _ Hc). reflexivity.
    + unfold transactions. cbn [brackets].
      apply transactions_word_list.
  - intros Hn. rewrite T, transfers_app.
    cbn [transfers]. rewrite length_app.
    assert (L : forall l,
               length (transfers
                         (concat (map (fun v => trace (SPI_WRITE16 v st)) l)))
               = (2 * length l)%nat).
    { induction l as [| v l IH]; [reflexivity|].
      cbn [map concat]. rewrite transfers_app, length_app, IH.
      cbn. lia. }
    rewrite L. unfold cells, zseq.
    rewrite !length_map, length_seq.
    change (length (transfers (trace (spiWrite commandByte st)))) with 2%nat.
    lia.
  - intros Hd. rewrite T.
    rewrite tagged_transfers_app.
    destruct (words_keep_mode st HIGH
                (cells (ram st) dataBytes numDataBytes) Hd) as [W _].
    destruct Hd as [H1 H2].
    run. cbn [tagged_transfers level_after].
    rewrite Z.eqb_refl.
    destruct (Z.eqb_spec (_cs (this st)) (_dc (this st))); [contradiction|].
    destruct (Z.eqb_spec (tft8_wr (this st)) (_dc (this st)));
      [contradiction|].
    rewrite (u8_small _ Hc). cbn [app]. f_equal. f_equal.
    exact W.
Qed.

Lemma sendCommand_const_streams_witness :
  transactions (trace (sendCommand_const 0x2A 16 2 (mkWorld tft100 ram_demo)))
  = Some ([0x2A; 0x2A] :: map wire16 (cells ram_demo 16 2)).
Proof.
  refine (proj1 (proj2 (sendCommand_const_streams 0x2A 16 2
                          (mkWorld tft100 ram_demo) HIGH _))).
  unfold is_u8. lia.
Defined.

Lemma map_zseq_succ {A : Type} (f : Z -> A) (n : nat) :
  map f (map Z.of_nat (seq 0 (S n)))
  = f 0 :: map (fun i => f (i + 1)) (map Z.of_nat (seq 0 n)).
Proof.
  cbn [seq map]. f_equal.
  rewrite <- seq_shift, !map_map.
  apply map_ext. intros a. f_equal. lia.
Qed.

(** One command word of [sendCommand16], framed by the mode switches. *)
Lemma sendCommand16_loop_run (n : nat) :
  forall (c : Z) (st : World),
    is_u16 c ->
    final (sendCommand16_loop n c st) = st
    /\ trace (sendCommand16_loop n c st)
       = concat (map (fun i =>
                        DigitalWrite (_dc (this st)) LOW
                          :: trace (SPI_WRITE16 (u16 (c + i)) st)
                          ++ [DigitalWrite (_dc (this st)) HIGH])
                     (map Z.of_nat (seq 0 n))).
Proof.
  induction n as [| n IH]; intros c st Hc; [split; reflexivity|].
  assert (Hc' : is_u16 (u16 (c + 1)))
    by (unfold is_u16, u16; apply Z.mod_pos_bound; lia).
  destruct (IH (u16 (c + 1)) st Hc') as [F T].
  rewrite map_zseq_succ. cbn [concat].
  cbn [sendCommand16_loop]. rewrite !bind_run. cbn [value final trace].
  change (final (SPI_DC_LOW st)) with st.
  change (final (SPI_WRITE16 c st)) with st.
  change (final (SPI_DC_HIGH st)) with st.
  rewrite F, T. split; [reflexivity|].
  replace (u16 (c + 0)) with c
    by (rewrite Z.add_0_r; unfold u16, is_u16 in *;
        symmetry; apply Z.mod_small; lia).
  assert (E : forall i, u16 (u16 (c + 1) + i) = u16 (c + (i + 1))).
  { intros i. unfold u16. rewrite Z.add_mod_idemp_l by lia.
    f_equal. lia. }
  rewrite (map_ext _ _ (fun i => f_equal
             (fun w => DigitalWrite (_dc (this st)) LOW
                         :: trace (SPI_WRITE16 w st)
                         ++ [DigitalWrite (_dc (this st)) HIGH]) (E i))).
  reflexivity.
Qed.

Lemma sendCommand16_run (commandWord dataBytes numDataBytes : Z)
      (st : World) :
  is_u16 commandWord -> 0 <= numDataBytes ->
  final (sendCommand16 commandWord dataBytes numDataBytes st) = st
  /\ trace (sendCommand16 commandWord dataBytes numDataBytes st)
     = concat (map (fun i =>
                      DigitalWrite (_dc (this st)) LOW
                        :: trace (SPI_WRITE16 (u16 (commandWord + i)) st)
                        ++ [DigitalWrite (_dc (this st)) HIGH])
                   (zseq (Z.max numDataBytes 1))).
Proof.
  intros Hc Hn. unfold sendCommand16, zseq.
  destruct (Z.eqb_spec numDataBytes 0) as [-> | N].
  - change (Z.to_nat (Z.max 0 1)) with 1%nat.
    cbn [Z.to_nat seq map concat sendCommand16_loop Z.of_nat].
    replace (u16 (commandWord + 0)) with commandWord
      by (rewrite Z.add_0_r; unfold u16, is_u16 in *;
          symmetry; apply Z.mod_small; lia).
    split; reflexivity.
  - rewrite Z.max_l by lia.
    destruct (sendCommand16_loop_run (Z.to_nat numDataBytes) commandWord st Hc)
      as [F T].
    rewrite bind_run. cbn [ret value final trace app].
    rewrite F, T. split; reflexivity.
Qed.

Lemma brackets_command_words (st : World) (l : list Z) :
  transactions
    (concat (map (fun w =>
                    DigitalWrite (_dc (this st)) LOW
                      :: trace (SPI_WRITE16 w st)
                      ++ [DigitalWrite (_dc (this st)) HIGH]) l))
  = Some (map wire16 l).
Proof.
  unfold transactions.
  induction l as [| w l IH]; [reflexivity|].
  cbn [map concat].
  rewrite <- app_comm_cons, <- app_assoc. cbn [brackets].
  rewrite brackets_word. cbn [app brackets]. rewrite IH. reflexivity.
Qed.

Lemma command_words_mode (st : World) (l : list Z) :
  dc_apart (this st) ->
  forall cur,
    tagged_transfers (_dc (this st)) cur
      (concat (map (fun w =>
                      DigitalWrite (_dc (this st)) LOW
                        :: trace (SPI_WRITE16 w st)
                        ++ [DigitalWrite (_dc (this st)) HIGH]) l))
    = map (pair LOW) (concat (map wire16 l)).
Proof.
  intros Hd. induction l as [| w l IH]; intros cur; [reflexivity|].
  destruct (word_keeps_mode w st LOW Hd) as [W1 W2].
  cbn [map concat].
  rewrite <- app_comm_cons, <- app_assoc.
  cbn [tagged_transfers]. rewrite Z.eqb_refl.
  rewrite tagged_transfers_app, W1, W2.
  cbn [app tagged_transfers]. rewrite Z.eqb_refl.
  rewrite IH, map_app. reflexivity.
Qed.

(** X8.  [sendCommand16] never sends a payload byte: with no payload it
    sends the command word once, with [numDataBytes > 0] it sends the
    words [commandWord], [commandWord + 1], ... (wrapping at 16 bits), one
    per payload byte, each in a bracket of its own and, with the
    data/command pin apart from the strobed pins, each in command mode.
    The trace does not depend on the pointer or on the memory. *)
Theorem sendCommand16_counts_up
  (commandWord dataBytes numDataBytes : Z) (st : World) (cur : level) :
  is_u16 commandWord -> 0 <= numDataBytes ->
  final (sendCommand16 commandWord dataBytes numDataBytes st) = st
  /\ transactions (trace (sendCommand16 commandWord dataBytes numDataBytes st))
     = Some (map (fun i => wire16 (u16 (commandWord + i)))
                 (zseq (Z.max numDataBytes 1)))
  /\ (dc_apart (this st) ->
      tagged_transfers (_dc (this st)) cur
        (trace (sendCommand16 commandWord dataBytes numDataBytes st))
      = map (pair LOW)
            (concat (map (fun i => wire16 (u16 (commandWord + i)))
                         (zseq (Z.max numDataBytes 1)))))
  /\ (forall dataBytes' ram',
        trace (sendCommand16 commandWord dataBytes' numDataBytes
                 (mkWorld (this st) ram'))
        = trace (sendCommand16 commandWord dataBytes numDataBytes st)).
Proof.
  intros Hc Hn.
  destruct (sendCommand16_run commandWord dataBytes numDataBytes st Hc Hn)
    as [F T].
  split; [exact F |].
  split; [| split].
  - rewrite T.
    rewrite <- (map_map (fun i => u16 (commandWord + i))
                  (fun w => DigitalWrite (_dc (this st)) LOW
                              :: trace (SPI_WRITE16 w st)
                              ++ [DigitalWrite (_dc (this st)) HIGH])).
    rewrite brackets_command_words, map_map. reflexivity.
  - intros Hd. rewrite T.
    rewrite <- (map_map (fun i => u16 (commandWord + i))
                  (fun w => DigitalWrite (_dc (this st)) LOW
                              :: trace (SPI_WRITE16 w st)
                              ++ [DigitalWrite (_dc (this st)) HIGH])).
    rewrite (command_words_mode st _ Hd), map_map. reflexivity.
  - intros p' ram'. rewrite T.
    destruct (sendCommand16_run commandWord p' numDataBytes
                (mkWorld (this st) ram') Hc Hn) as [_ T'].
    rewrite T'. reflexivity.
Qed.

Lemma sendCommand16_counts_up_witness :
  transactions (trace (sendCommand16 0xFFFF 0 3 world100))
  = Some (map (fun i => wire16 (u16 (0xFFFF + i))) (zseq (Z.max 3 1))).
Proof.
  refine (proj1 (proj2 (sendCommand16_counts_up 0xFFFF 0 3 world100 HIGH
                          _ _))).
  - unfold is_u16. lia.
  - lia.
Defined.

(** ** Transaction brackets *)




(** ** Pins *)

Ltac apart :=
  repeat match goal with
         | |- context [?a =? ?b] =>
             destruct (Z.eqb_spec a b); try contradiction; try congruence
         end.

(** X10.  Every write primitive ends with the chip-select and write
    strobes, so it leaves the chip-select pin low and the write pin high,
    and it touches no other pin: in particular the data/command mode is
    the one it was called in. *)
Theorem primitives_leave_pins (v : Z) (st : World) (pin : Z) (cur : level) :
  _cs (this st) <> tft8_wr (this st) ->
  let ends_well (t : list event) :=
    level_after (_cs (this st)) cur t = LOW
    /\ level_after (tft8_wr (this st)) cur t = HIGH
    /\ (pin <> _cs (this st) -> pin <> tft8_wr (this st) ->
        level_after pin cur t = cur) in
  ends_well (trace (spiWrite v st))
  /\ ends_well (trace (write16 v st))
  /\ ends_well (trace (SPI_WRITE16 v st))
  /\ ends_well (trace (SPI_WRITE32 v st))
  /\ ends_well (trace (endWrite st)).
Proof.
  intros H ends_well. unfold ends_well.
  repeat split; run; cbn [level_after]; intros; rewrite ?Z.eqb_refl;
    apart; reflexivity.
Qed.

Lemma primitives_leave_pins_witness :
  level_after 5 HIGH (trace (SPI_WRITE16 0x07E0 world100)) = LOW.
Proof.
  refine (proj1 (proj1 (proj2 (proj2
            (primitives_leave_pins 0x07E0 world100 6 HIGH _))))).
  cbn. lia.
Defined.

(** X11.  With the data/command pin apart from the strobed pins, the
    command writers send their command in command mode (pin low) and
    leave the display in data mode (pin high).  [readcommand8] does the
    same and then returns 0 whatever the index: no read is clocked.
    [invertDisplay] sends the inversion command selected by its flag. *)
Theorem commands_go_out_in_command_mode
  (cmd index on off : Z) (st : World) (cur : level) :
  is_u8 cmd -> is_u8 on -> is_u8 off ->
  dc_apart (this st) ->
  (tagged_transfers (_dc (this st)) cur (trace (writeCommand cmd st))
   = [(LOW, cmd); (LOW, cmd)]
   /\ level_after (_dc (this st)) cur (trace (writeCommand cmd st)) = HIGH)
  /\ (forall w,
        tagged_transfers (_dc (this st)) cur (trace (writeCommand16 w st))
        = map (pair LOW) (wire16 w)
        /\ level_after (_dc (this st)) cur (trace (writeCommand16 w st))
           = HIGH)
  /\ (value (readcommand8 cmd index st) = 0
      /\ trace (readcommand8 cmd index st) = trace (writeCommand cmd st)
      /\ final (readcommand8 cmd index st) = st)
  /\ tagged_transfers (_dc (this st)) cur
       (trace (invertDisplay on off true st))
     = [(LOW, on); (LOW, on)]
  /\ tagged_transfers (_dc (this st)) cur
       (trace (invertDisplay on off false st))
     = [(LOW, off); (LOW, off)].
Proof.
  intros Hc Hon Hoff [H1 H2].
  assert (W : forall b c, is_u8 b ->
              tagged_transfers (_dc (this st)) c (trace (writeCommand b st))
              = [(LOW, b); (LOW, b)]
              /\ level_after (_dc (this st)) c (trace (writeCommand b st))
                 = HIGH).
  { intros b c Hb. run. cbn [tagged_transfers level_after].
    rewrite ?Z.eqb_refl. apart. rewrite (u8_small b Hb).
    split; reflexivity. }
  split; [apply W; exact Hc |].
  split.
  { intros w. run. cbn [tagged_transfers level_after map wire16].
    rewrite ?Z.eqb_refl. apart. split; reflexivity. }
  split; [repeat split |].
  split; [apply (W on cur Hon) | apply (W off cur Hoff)].
Qed.

Lemma commands_go_out_in_command_mode_witness :
  tagged_transfers 6 HIGH (trace (writeCommand 0x2C world100))
  = [(LOW, 0x2C); (LOW, 0x2C)].
Proof.
  refine (proj1 (proj1 (commands_go_out_in_command_mode 0x2C 0 0x21 0x20
                          world100 HIGH _ _ _ _)));
    try (unfold is_u8; lia).
  split; cbn; lia.
Defined.

(** ** Initialisation *)

(** X12.  [initSPI] stores the settings [(freq, MSBFIRST, SPI_MODE0)], with
    [DEFAULT_SPI_FREQ] standing in for a zero [freq] and whatever
    [spiMode] is passed, and uses them for the one transaction that
    clears the shift registers.  It pulses the reset pin for 400 ms in all
    when there is one ([_rst >= 0]) and does not wait at all otherwise; the
    memory is left as it was.  With the five pins pairwise distinct it
    leaves chip-select low and data/command and write high, and reset
    high when there is a reset pin. *)
Theorem initSPI_sets_up (DEFAULT_SPI_FREQ freq spiMode : Z) (st : World)
        (cur : level) :
  let f := if freq =? 0 then DEFAULT_SPI_FREQ else freq in
  let r := initSPI DEFAULT_SPI_FREQ freq spiMode st in
  hwspi_settings (this (final r)) = mkSPISettings f MSBFIRST SPI_MODE0
  /\ begun_with (trace r) = [mkSPISettings f MSBFIRST SPI_MODE0]
  /\ total_delay (trace r) = (if 0 <=? _rst (this st) then 400 else 0)
  /\ ram (final r) = ram st
  /\ (forall spiMode',
        initSPI DEFAULT_SPI_FREQ freq spiMode' st = r)
  /\ (NoDup [_cs (this st); _dc (this st); tft8_wr (this st);
             tft8_rd (this st); _rst (this st)] ->
      level_after (_cs (this st)) cur (trace r) = LOW
      /\ level_after (_dc (this st)) cur (trace r) = HIGH
      /\ level_after (tft8_wr (this st)) cur (trace r) = HIGH
      /\ (0 <= _rst (this st) ->
          level_after (_rst (this st)) cur (trace r) = HIGH)).
Proof.
  intros f r.
  assert (P : hwspi_settings (this (final r))
              = mkSPISettings f MSBFIRST SPI_MODE0
              /\ begun_with (trace r) = [mkSPISettings f MSBFIRST SPI_MODE0]
              /\ total_delay (trace r)
                 = (if 0 <=? _rst (this st) then 400 else 0)
              /\ ram (final r) = ram st).
  { subst r f. unfold initSPI, truthy.
    rewrite bind_run. cbn [self value final trace app].
    destruct (freq =? 0); cbn [negb];
      destruct (Z.leb_spec 0 (tft8_rd (this st)));
      destruct (Z.leb_spec 0 (_rst (this st)));
      cbv beta iota zeta delta
        [bind ret emit self pinMode digitalWrite delay spi_transfer16
         set_settings SPI_CS_HIGH SPI_CS_LOW SPI_DC_HIGH SPI_DC_LOW
         TFT_CS_STROBE value final trace app];
      cbn [this ram hwspi_settings begun_with total_delay];
      (split; [reflexivity | split; [reflexivity | split; reflexivity]]). }
  destruct P as (P1 & P2 & P3 & P4).
  split; [exact P1 |]. split; [exact P2 |]. split; [exact P3 |].
  split; [exact P4 |]. split; [intros spiMode'; reflexivity |].
  intros ND.
  assert (D : _cs (this st) <> _dc (this st)
              /\ _cs (this st) <> tft8_wr (this st)
              /\ _cs (this st) <> tft8_rd (this st)
              /\ _cs (this st) <> _rst (this st)
              /\ _dc (this st) <> tft8_wr (this st)
              /\ _dc (this st) <> tft8_rd (this st)
              /\ _dc (this st) <> _rst (this st)
              /\ tft8_wr (this st) <> tft8_rd (this st)
              /\ tft8_wr (this st) <> _rst (this st)
              /\ tft8_rd (this st) <> _rst (this st)).
  { repeat match goal with
           | H : NoDup (_ :: _) |- _ => inversion H; clear H; subst
           end.
    cbn [In] in *. repeat split; intros E; rewrite E in *; tauto. }
  destruct D as (D1 & D2 & D3 & D4 & D5 & D6 & D7 & D8 & D9 & D10).
  clear P1 P2 P3 P4.
  subst r f. unfold initSPI, truthy.
  rewrite bind_run. cbn [self value final trace app].
  destruct (freq =? 0); cbn [negb];
    destruct (Z.leb_spec 0 (tft8_rd (this st)));
    destruct (Z.leb_spec 0 (_rst (this st)));
    cbv beta iota zeta delta
      [bind ret emit self pinMode digitalWrite delay spi_transfer16
       set_settings SPI_CS_HIGH SPI_CS_LOW SPI_DC_HIGH SPI_DC_LOW
       TFT_CS_STROBE value final trace app];
    cbn [this ram hwspi_settings _cs _dc tft8_wr tft8_rd _rst
         level_after];
    rewrite ?Z.eqb_refl;
    (repeat split; try reflexivity; try lia; intros; apart; reflexivity).
Qed.

Lemma initSPI_sets_up_witness :
  level_after 5 HIGH (trace (initSPI 16000000 0 0 world100)) = LOW.
Proof.
  refine (proj1 (proj2 (proj2 (proj2 (proj2 (proj2
            (initSPI_sets_up 16000000 0 0 world100 HIGH))))) _)).
  cbn. repeat constructor; cbn; intuition lia.
Defined.

(** ** Bitmaps *)

Lemma transactions_rows (st : World) (rows : list (list Z)) :
  transactions
    (concat (map (fun vs => concat (map (fun v => trace (SPI_WRITE16 v st)) vs))
                 rows))
  = Some (concat (map (map wire16) rows)).
Proof.
  induction rows as [| vs rows IH]; [reflexivity|].
  cbn [map concat].
  apply transactions_app; [apply transactions_word_list | exact IH].
Qed.

Lemma windows_rows (st : World) (rows : list (list Z)) :
  windows
    (concat (map (fun vs => concat (map (fun v => trace (SPI_WRITE16 v st)) vs))
                 rows))
  = [].
Proof.
  induction rows as [| vs rows IH]; [reflexivity|].
  cbn [map concat].
  assert (A : forall t u, windows (t ++ u) = windows t ++ windows u).
  { induction t as [| e t IHt]; intros u; [reflexivity|].
    destruct e; cbn [app windows]; rewrite IHt; reflexivity. }
  rewrite A, windows_word_list, IH. reflexivity.
Qed.

(** The row loop sends [n] rows of [w] cells; row [j] starts [j * saveW]
    cells after [pcolors]. *)
Lemma drawRGBBitmap_rows_run (w saveW : Z) (st : World) (n : nat) :
  0 <= w < 4294967296 ->
  forall pcolors,
    final (drawRGBBitmap_rows n pcolors w saveW st) = st
    /\ trace (drawRGBBitmap_rows n pcolors w saveW st)
       = concat (map (fun vs =>
                        concat (map (fun v => trace (SPI_WRITE16 v st)) vs))
                     (map (fun j => cells (ram st) (pcolors + j * saveW) w)
                          (map Z.of_nat (seq 0 n)))).
Proof.
  intros Hw. induction n as [| n IH]; intros pcolors; [split; reflexivity|].
  destruct (IH (pcolors + saveW)) as [F T].
  destruct (writePixels_run pcolors w true false st ltac:(lia)) as [F1 T1].
  rewrite map_zseq_succ. cbn [map concat].
  cbn [drawRGBBitmap_rows]. rewrite bind_run. cbn [value final trace].
  replace (u32 w) with w by (unfold u32; symmetry; apply Z.mod_small; lia).
  rewrite F1, T1, F, T.
  replace (pcolors + 0 * saveW) with pcolors by lia.
  split; [reflexivity|]. f_equal. f_equal.
  rewrite !map_map. apply map_ext. intros j.
  replace (pcolors + saveW + Z.of_nat j * saveW)
    with (pcolors + (Z.of_nat j + 1) * saveW) by ring.
  reflexivity.
Qed.

(** The window and the rows of a bitmap once the clipping is done. *)
Lemma bitmap_body (a b c d pc saveW : Z) (st : World) :
  0 <= c < 32768 -> 0 < d < 32768 ->
  let r := (setAddrWindow a b c d ;;
            drawRGBBitmap_rows (Z.to_nat (u16 d)) pc c saveW) st in
  final r = st
  /\ windows (trace r) = [(a, b, c, d)]
  /\ transactions (trace r)
     = Some (concat
               (map (fun j =>
                       map (fun i => wire16 (ram st (pc + j * saveW + i)))
                           (zseq c))
                    (zseq d))).
Proof.
  intros Hc Hd r. subst r.
  destruct (drawRGBBitmap_rows_run c saveW st (Z.to_nat (u16 d))
              ltac:(lia) pc) as [F T].
  rewrite bind_run. cbn [value final trace].
  change (final (setAddrWindow a b c d st)) with st.
  rewrite F, T.
  replace (u16 d) with d by (unfold u16; symmetry; apply Z.mod_small; lia).
  split; [reflexivity|].
  split.
  - cbn [setAddrWindow emit trace app windows].
    rewrite windows_rows. reflexivity.
  - cbn [setAddrWindow emit trace app]. unfold transactions.
    cbn [brackets]. fold (transactions
      (concat (map (fun vs =>
                      concat (map (fun v => trace (SPI_WRITE16 v st)) vs))
                   (map (fun j => cells (ram st) (pc + j * saveW) c)
                        (map Z.of_nat (seq 0 (Z.to_nat d))))))).
    rewrite transactions_rows. f_equal. f_equal.
    fold (zseq d). rewrite map_map.
    apply map_ext. intros j. unfold cells. rewrite map_map. reflexivity.
Qed.

(** X13.  For a bitmap of positive width and height that overlaps the
    surface, with representable far edges, [drawRGBBitmap] programs the
    window of the intersection [(cx, cy, cw, ch)] and then sends, row by
    row, for every pixel [(cx + i, cy + j)] of that window the bitmap
    cell that belongs there: the cell [(cy - y + j) * w + (cx - x + i)]
    of the source, whose rows are [w] cells apart.  The memory is left as
    it was. *)
Theorem drawRGBBitmap_clipped (x y pcolors w h : Z) (st : World) :
  is_i16 (_width (this st)) -> is_i16 (_height (this st)) ->
  is_i16 x -> is_i16 y -> is_i16 w -> is_i16 h ->
  0 < w -> 0 < h ->
  overlaps (this st) x y w h = true ->
  far_edge x w <= 32767 -> far_edge y h <= 32767 ->
  forall cx cy cw ch,
    intersection (_width (this st)) x w = (cx, cw) ->
    intersection (_height (this st)) y h = (cy, ch) ->
    final (drawRGBBitmap x y pcolors w h st) = st
    /\ windows (trace (drawRGBBitmap x y pcolors w h st))
       = [(cx, cy, cw, ch)]
    /\ transactions (trace (drawRGBBitmap x y pcolors w h st))
       = Some (concat
                 (map (fun j =>
                         map (fun i =>
                                wire16 (ram st (pcolors
                                                + (cy - y + j) * w
                                                + (cx - x + i))))
                             (zseq cw))
                      (zseq ch))).
Proof.
  unfold is_i16. intros IW IH Hx Hy Hw Hh Pw Ph Ho Fx Fy cx cy cw ch Ix Iy.
  unfold overlaps in Ho. apply andb_prop in Ho. destruct Ho as [Mx My].
  unfold meets, far_edge, intersection, normalized in *.
  destruct (Z.ltb_spec w 0); [lia|]. destruct (Z.ltb_spec h 0); [lia|].
  apply Z.ltb_lt in Mx, My.
  injection Ix as Ecx Ecw. injection Iy as Ecy Ech.
  unfold drawRGBBitmap. rewrite bind_run.
  cbn [self value final trace app].
  rewrite (i16_small (x + w - 1)), (i16_small (y + h - 1))
    by (unfold is_i16; lia).
  destruct (Z.leb_spec (_width (this st)) x); [lia|].
  destruct (Z.leb_spec (_height (this st)) y); [lia|].
  destruct (Z.ltb_spec (x + w - 1) 0); [lia|].
  destruct (Z.ltb_spec (y + h - 1) 0); [lia|].
  destruct (Z.ltb_spec x 0), (Z.ltb_spec y 0),
           (Z.leb_spec (_width (this st)) (x + w - 1)),
           (Z.leb_spec (_height (this st)) (y + h - 1));
    cbn beta iota zeta;
    rewrite ?i16_small by (unfold is_i16; lia);
    match goal with
    | |- context [(setAddrWindow ?a ?b ?c ?d ;; ?rows) st] =>
        replace cx with a by lia; replace cy with b by lia;
        replace cw with c by lia; replace ch with d by lia
    end;
    match goal with
    | |- context [(setAddrWindow ?a ?b ?c ?d ;;
                   drawRGBBitmap_rows _ ?pc _ ?sw) st] =>
        destruct (bitmap_body a b c d pc sw st ltac:(lia) ltac:(lia))
          as (B1 & B2 & B3)
    end;
    (split; [exact B1 | split; [exact B2 |]]);
    rewrite B3; f_equal; f_equal;
    apply map_ext; intros j; apply map_ext; intros i;
    f_equal; f_equal; ring.
Qed.

Lemma drawRGBBitmap_clipped_witness :
  windows (trace (drawRGBBitmap (-1) 98 16 3 4 (mkWorld tft100 ram_demo)))
  = [(0, 98, 2, 2)].
Proof.
  refine (proj1 (proj2 (drawRGBBitmap_clipped (-1) 98 16 3 4
                          (mkWorld tft100 ram_demo)
                          _ _ _ _ _ _ _ _ _ _ _ 0 98 2 2 _ _)));
    try (unfold is_i16; cbn; lia); try reflexivity; cbn; lia.
Defined.

(** ** Byte order *)

Lemma wire16_bswap16 (v : Z) :
  is_u16 v -> wire16 (bswap16 v) = rev (wire16 v).
Proof.
  unfold is_u16. intros H. rewrite bswap16_arith.
  unfold wire16, u8. rewrite !land_255, !Z.shiftr_div_pow2 by lia.
  change (2 ^ 8) with 256. cbn [rev app].
  f_equal; [| f_equal]; Z.div_mod_to_equations; lia.
Qed.

Lemma in_zseq (n i : Z) : In i (zseq n) -> 0 <= i < n.
Proof.
  unfold zseq. intros H. apply in_map_iff in H.
  destruct H as (k & <- & Hk). apply in_seq in Hk. lia.
Qed.

Lemma transfers_word_list (st : World) (l : list Z) :
  transfers (concat (map (fun v => trace (SPI_WRITE16 v st)) l))
  = concat (map wire16 l).
Proof.
  induction l as [| v l IH]; [reflexivity|].
  cbn [map concat]. rewrite transfers_app, IH. reflexivity.
Qed.

(** X14.  [swapBytes] copies with the bytes swapped: when the output
    buffer (the destination, or the source for a null destination) does
    not start inside the part of the source still to be read, its cell
    [i] receives the byte-swapped source cell [i]; a destination disjoint
    from the source leaves the source as it was.  Sending the output
    buffer with [writePixels] then puts every source pixel on the bus low
    byte first. *)
Theorem swapBytes_then_writePixels (src len dest : Z) (st : World) :
  let out := if truthy dest then dest else src in
  let st1 := final (swapBytes src len dest st) in
  0 <= len ->
  out <= src \/ src + len <= out ->
  (forall a, src <= a < src + len -> is_u16 (ram st a)) ->
  (forall i, 0 <= i < len ->
     ram st1 (out + i) = bswap16 (ram st (src + i)))
  /\ (out + len <= src \/ src + len <= out ->
      forall i, 0 <= i < len -> ram st1 (src + i) = ram st (src + i))
  /\ transfers (trace (writePixels out len true false st1))
     = concat (map (fun v => rev (wire16 v)) (cells (ram st) src len)).
Proof.
  intros out st1 Hl Hd Hc.
  destruct (swapBytes_spec src len dest st Hl Hd) as (_ & _ & R).
  fold out in R. fold st1 in R.
  assert (O : forall i, 0 <= i < len ->
              ram st1 (out + i) = bswap16 (ram st (src + i))).
  { intros i Hi. rewrite R.
    destruct (Z.leb_spec out (out + i)), (Z.ltb_spec (out + i) (out + len));
      try lia.
    cbn [andb]. f_equal. f_equal. lia. }
  split; [exact O |].
  split.
  - intros Hdis i Hi. rewrite R.
    destruct (Z.leb_spec out (src + i)), (Z.ltb_spec (src + i) (out + len));
      cbn [andb]; try reflexivity; lia.
  - destruct (writePixels_run out len true false st1 Hl) as [_ T].
    rewrite T, transfers_word_list. f_equal.
    unfold cells. rewrite !map_map.
    apply map_ext_in. intros i Hi. apply in_zseq in Hi.
    rewrite (O i Hi). apply wire16_bswap16. apply Hc. lia.
Qed.

Lemma swapBytes_then_writePixels_witness :
  transfers
    (trace (writePixels 32 2 true false
              (final (swapBytes 16 2 32 (mkWorld tft100 ram_demo)))))
  = concat (map (fun v => rev (wire16 v)) (cells ram_demo 16 2)).
Proof.
  refine (proj2 (proj2 (swapBytes_then_writePixels 16 2 32
                          (mkWorld tft100 ram_demo) _ _ _))).
  - lia.
  - cbn. lia.
  - intros a Ha. unfold is_u16, ram, ram_demo.
    assert (a = 16 \/ a = 17) as [-> | ->] by lia; cbn; lia.
Defined.

(** ** Words on the bus *)

(** X15.  A 16-bit word written by [SPI_WRITE16] or [write16] crosses the
    bus as one bracket of two bytes, high byte first, from which the word
    is read back; the two functions put the same bytes on the bus and
    differ only in what they print on the serial log (once the word, or
    its two bytes). *)
Theorem word_round_trip (w : Z) (st : World) :
  is_u16 w ->
  transactions (trace (SPI_WRITE16 w st)) = Some [wire16 w]
  /\ transactions (trace (write16 w st)) = Some [wire16 w]
  /\ word_of (wire16 w) = Some w
  /\ wire16 w = [w / 256; w mod 256]
  /\ filter (fun e => match e with SerialPrintln _ => false | _ => true end)
       (trace (write16 w st))
     = filter (fun e => match e with SerialPrintln _ => false | _ => true end)
         (trace (SPI_WRITE16 w st)).
Proof.
  intros H.
  split; [reflexivity |]. split; [reflexivity |].
  split; [apply word_of_wire16; exact H |].
  split; [| reflexivity].
  unfold wire16, u8, is_u16 in *.
  rewrite land_255, Z.shiftr_div_pow2 by lia. change (2 ^ 8) with 256.
  f_equal; [| f_equal]; Z.div_mod_to_equations; lia.
Qed.

Lemma word_round_trip_witness :
  word_of (wire16 0x07E0) = Some 0x07E0.
Proof.
  refine (proj1 (proj2 (proj2 (word_round_trip 0x07E0 world100 _)))).
  unfold is_u16. lia.
Defined.


